(** * Text2Grad: the response parser and run driver of [2_infer.py]

    A shallow embedding of [nl_reward_model/slf5k/evaluation/2_infer.py]:
    the two response-parsing functions [extract_textual_feedback] and
    [extract_word_scores], the run driver [main], the prompt builder
    [prepare_input] and the batch generator [process_batch], with the
    properties of the specification proved or refuted on them, and
    further properties of the code.

    Conventions of the embedding.
    - A Python [str] is a Rocq [string], read as the UTF-8 encoding of
      the text.  The Unicode-aware classes of Python ([\s], [\d], the
      whitespace and digits of [int], [str.lower]) are modelled by
      their ASCII part; text with other whitespace or digits is
      outside the model.
    - A Python value is a [pyval]: the values [json.loads] builds, and
      tuples.  A [float] is an IEEE binary64 of [SpecFloat].
    - A call either returns or raises: [res A].  Only exceptions
      derived from [Exception] are modelled; the limits of the
      interpreter (recursion depth, the digit limit of [int]) are not.
    - [json.loads], [re.search], [re.findall], [int], [str] and
      [random.sample] are library code; they are modelled by executable
      definitions that follow the CPython implementation.
    - The lines that [extract_word_scores] prints are part of its
      result.  The lines that [main] prints and the files it touches
      are a list of [event]s.
    - The generator of a run, the file system and the random source
      are parameters of the run ([env]).  The language model and its
      tokenizer are library code that is not modelled: the
      [process_batch] of the source takes them as parameters, and
      [with_generator] makes it the generator of a run.
    - [parse_args] and [load_and_prepare_model] are calls into
      [argparse] and the model library: the first is the record
      [args], the second a parameter of the run.

    The file has the definitions first (library model, parser, driver,
    prompt builder and generator, then the predicates used in the
    statements and an example run), and then the lemmas and
    theorems.  *)

From Stdlib Require Import ZArith String Ascii List Bool Lia.
From Stdlib Require Import SpecFloat DecimalString.
From stdpp Require Import base tactics list list_tactics.

Import ListNotations.
Local Open Scope Z_scope.
Set Warnings "-register-all".
Arguments Ascii.eqb : simpl never.
Arguments String.eqb : simpl never.

(** ** Python values and exceptions *)

Inductive exn : Type :=
| JSONDecodeError
| AttributeError
| KeyError
| IndexError
| TypeError
| ValueError
| OverflowError
| StopIteration
| OSError
| RuntimeError.

Inductive res (A : Type) : Type :=
| Ok (a : A)
| Raise (e : exn).
Arguments Ok {A} a.
Arguments Raise {A} e.

Definition bind {A B} (m : res A) (k : A -> res B) : res B :=
  match m with
  | Ok a => k a
  | Raise e => Raise e
  end.

Notation "'do' x <- m ; k" := (bind m (fun x => k))
  (at level 10, x name, m at level 100, k at level 200).

(** [[f(x) for x in l]] for an [f] that may raise: left to right, the
    first exception ends the comprehension. *)
Fixpoint mapM {A B} (f : A -> res B) (l : list A) : res (list B) :=
  match l with
  | [] => Ok []
  | x :: l' => do y <- f x; do ys <- mapM f l'; Ok (y :: ys)
  end.

Inductive pyval : Type :=
| PNone
| PBool (b : bool)
| PInt (n : Z)
| PFloat (f : spec_float)
| PStr (s : string)
| PList (l : list pyval)
| PTuple (l : list pyval)
| PDict (d : list (string * pyval)).

(** A [dict] keeps its keys in insertion order; assigning to a key
    that is present replaces the value in place. *)
Fixpoint dict_get (d : list (string * pyval)) (k : string) : option pyval :=
  match d with
  | [] => None
  | (k', v) :: d' => if String.eqb k' k then Some v else dict_get d' k
  end.

Fixpoint dict_set (d : list (string * pyval)) (k : string) (v : pyval)
  : list (string * pyval) :=
  match d with
  | [] => [(k, v)]
  | (k', v') :: d' =>
      if String.eqb k' k then (k', v) :: d' else (k', v') :: dict_set d' k v
  end.

Definition dict_of_pairs (ps : list (string * pyval)) : list (string * pyval) :=
  fold_left (fun d kv => dict_set d (fst kv) (snd kv)) ps [].

Definition dict_keys (d : list (string * pyval)) : list string := map fst d.

Definition dict_has (d : list (string * pyval)) (k : string) : bool :=
  match dict_get d k with Some _ => true | None => false end.

(** ** Characters *)

Definition code (c : ascii) : Z := Z.of_N (N_of_ascii c).
Definition chr (n : Z) : ascii := ascii_of_N (Z.to_N n).

Definition is_digit (c : ascii) : bool := (48 <=? code c) && (code c <=? 57).
Definition digit_val (c : ascii) : Z := code c - 48.

(** Whitespace of [json]: space, tab, line feed, carriage return. *)
Definition is_json_ws (c : ascii) : bool :=
  let n := code c in (n =? 32) || (n =? 9) || (n =? 10) || (n =? 13).

(** Whitespace of [str.isspace], [\s] and [int]: the ASCII part of
    CPython's table: 9-13, 28-31 and 32. *)
Definition is_space (c : ascii) : bool :=
  let n := code c in
  ((9 <=? n) && (n <=? 13)) || ((28 <=? n) && (n <=? 31)) || (n =? 32).

Definition hex_val (c : ascii) : option Z :=
  let n := code c in
  if (48 <=? n) && (n <=? 57) then Some (n - 48)
  else if (97 <=? n) && (n <=? 102) then Some (n - 87)
  else if (65 <=? n) && (n <=? 70) then Some (n - 55)
  else None.

Definition lower_char (c : ascii) : ascii :=
  let n := code c in
  if (65 <=? n) && (n <=? 90) then chr (n + 32) else c.

Definition str_lower (s : string) : string :=
  string_of_list_ascii (map lower_char (list_ascii_of_string s)).

(** The double quote, and a way to write it inside a string literal:
    [q s] is [s] with every backquote replaced by a double quote. *)
Definition DQ : ascii := "034"%char.

Definition q (s : string) : string :=
  string_of_list_ascii
    (map (fun c => if Ascii.eqb c "`" then DQ else c) (list_ascii_of_string s)).

(** ** Floating point: IEEE binary64, as the Standard Library specifies it *)

Definition prec : Z := 53.
Definition emax : Z := 1024.

Fixpoint ndigits10_aux (fuel : nat) (m : Z) : Z :=
  match fuel with
  | O => 0
  | S fuel' => if m <=? 0 then 0 else 1 + ndigits10_aux fuel' (m / 10)
  end.

(** Number of decimal digits of [m > 0]. *)
Definition ndigits10 (m : Z) : Z := ndigits10_aux (S (Z.to_nat (Z.log2 m))) m.

(** [float(text)]: the binary64 nearest to [(-1)^neg * m * 10^e]
    (ties to even), infinite beyond the range. *)
Definition float_of_decimal (neg : bool) (m e : Z) : spec_float :=
  match m with
  | Z0 => S754_zero neg
  | Zpos p =>
      let nd := ndigits10 m in
      if 310 <=? nd + e then S754_infinity neg
      else if nd + e <=? -324 then S754_zero neg
      else if 0 <=? e then
        match m * 10 ^ e with
        | Zpos p' => binary_round prec emax neg p' 0
        | _ => S754_nan
        end
      else
        let '(mz, ez, lz) := SFdiv_core_binary prec emax m 0 (10 ^ (- e)) 0 in
        binary_round_aux prec emax neg mz ez lz
  | Zneg _ => S754_nan
  end.

(** [int(x)] for a float: truncation towards zero. *)
Definition float_trunc (f : spec_float) : res Z :=
  match f with
  | S754_zero _ => Ok 0
  | S754_infinity _ => Raise OverflowError
  | S754_nan => Raise ValueError
  | S754_finite s m e =>
      let a := if 0 <=? e then Zpos m * 2 ^ e else Zpos m / 2 ^ (- e) in
      Ok (if s then - a else a)
  end.

(** ** [json.loads] *)

Inductive pr (A : Type) : Type :=
| POk (a : A) (rest : list ascii)
| PErr
| PFuel.
Arguments POk {A} a rest.
Arguments PErr {A}.
Arguments PFuel {A}.

Fixpoint skip_ws (s : list ascii) : list ascii :=
  match s with
  | c :: r => if is_json_ws c then skip_ws r else s
  | [] => []
  end.

Fixpoint strip_prefix (p s : list ascii) : option (list ascii) :=
  match p with
  | [] => Some s
  | a :: p' =>
      match s with
      | c :: s' => if Ascii.eqb a c then strip_prefix p' s' else None
      | [] => None
      end
  end.

Fixpoint span_digits (s : list ascii) : list ascii * list ascii :=
  match s with
  | c :: r =>
      if is_digit c then let '(d, r') := span_digits r in (c :: d, r')
      else ([], s)
  | [] => ([], [])
  end.

Definition digits_to_Z (d : list ascii) : Z :=
  fold_left (fun a c => 10 * a + digit_val c) d 0.

(** The number syntax of the scanner: an optional minus sign; a zero,
    or a non-zero digit followed by digits; an optional fraction (a dot
    and at least one digit); an optional exponent ([e] or [E], an
    optional sign, at least one digit).  A literal with neither
    fraction nor exponent is an [int], any other a [float]. *)
Definition match_number (s : list ascii) : option (pyval * list ascii) :=
  let '(neg, s1) :=
    match s with
    | c :: r => if Ascii.eqb c "-" then (true, r) else (false, s)
    | [] => (false, s)
    end in
  match s1 with
  | c :: r1 =>
      if is_digit c then
        let '(ipart, r2) :=
          if Ascii.eqb c "0" then ([c], r1) else span_digits s1 in
        let '(frac, r3) :=
          match r2 with
          | d :: r =>
              if Ascii.eqb d "." then
                match span_digits r with
                | ([], _) => (None, r2)
                | (ds, r') => (Some ds, r')
                end
              else (None, r2)
          | [] => (None, r2)
          end in
        let '(ex, r4) :=
          match r3 with
          | d :: r =>
              if Ascii.eqb d "e" || Ascii.eqb d "E" then
                let '(eneg, r') :=
                  match r with
                  | sg :: r'' =>
                      if Ascii.eqb sg "-" then (true, r'')
                      else if Ascii.eqb sg "+" then (false, r'')
                      else (false, r)
                  | [] => (false, r)
                  end in
                match span_digits r' with
                | ([], _) => (None, r3)
                | (ds, r'') =>
                    (Some (if eneg then - digits_to_Z ds else digits_to_Z ds), r'')
                end
              else (None, r3)
          | [] => (None, r3)
          end in
        match frac, ex with
        | None, None =>
            let n := digits_to_Z ipart in
            Some (PInt (if neg then - n else n), r4)
        | _, _ =>
            let fd := match frac with Some ds => ds | None => [] end in
            let e := match ex with Some e => e | None => 0 end in
            Some (PFloat (float_of_decimal neg (digits_to_Z (ipart ++ fd))
                                           (e - Z.of_nat (length fd))), r4)
        end
      else None
  | [] => None
  end.

(** The scalars of the scanner, in its order: [null], [true], [false],
    a number, [NaN], [Infinity], [-Infinity]. *)
Definition scan_atom (s : list ascii) : pr pyval :=
  match strip_prefix (list_ascii_of_string "null") s with
  | Some r => POk PNone r
  | None =>
  match strip_prefix (list_ascii_of_string "true") s with
  | Some r => POk (PBool true) r
  | None =>
  match strip_prefix (list_ascii_of_string "false") s with
  | Some r => POk (PBool false) r
  | None =>
  match match_number s with
  | Some (v, r) => POk v r
  | None =>
  match strip_prefix (list_ascii_of_string "NaN") s with
  | Some r => POk (PFloat S754_nan) r
  | None =>
  match strip_prefix (list_ascii_of_string "Infinity") s with
  | Some r => POk (PFloat (S754_infinity false)) r
  | None =>
  match strip_prefix (list_ascii_of_string "-Infinity") s with
  | Some r => POk (PFloat (S754_infinity true)) r
  | None => PErr
  end end end end end end end.

(** String literals.  The first pass reads the literal up to its
    closing quote into units: a character of the text, or the code
    unit of a [\uXXXX] escape.  The second pass joins surrogate pairs
    and encodes the escapes. *)
Inductive sunit : Type :=
| Raw (c : ascii)
| Esc (u : Z).

Definition simple_escape (e : ascii) : option ascii :=
  if Ascii.eqb e DQ then Some DQ
  else if Ascii.eqb e "\" then Some "\"%char
  else if Ascii.eqb e "/" then Some "/"%char
  else if Ascii.eqb e "b" then Some "008"%char
  else if Ascii.eqb e "f" then Some "012"%char
  else if Ascii.eqb e "n" then Some "010"%char
  else if Ascii.eqb e "r" then Some "013"%char
  else if Ascii.eqb e "t" then Some "009"%char
  else None.

Definition hex4 (a b c d : ascii) : option Z :=
  match hex_val a, hex_val b, hex_val c, hex_val d with
  | Some x, Some y, Some z, Some w => Some (((x * 16 + y) * 16 + z) * 16 + w)
  | _, _, _, _ => None
  end.

Fixpoint scanstring (s : list ascii) (acc : list sunit) : pr (list sunit) :=
  match s with
  | [] => PErr
  | c :: r =>
      if Ascii.eqb c DQ then POk (rev acc) r
      else if Ascii.eqb c "\" then
        match r with
        | [] => PErr
        | e :: r' =>
            if Ascii.eqb e "u" then
              match r' with
              | h1 :: h2 :: h3 :: h4 :: r'' =>
                  match hex4 h1 h2 h3 h4 with
                  | Some u => scanstring r'' (Esc u :: acc)
                  | None => PErr
                  end
              | _ => PErr
              end
            else
              match simple_escape e with
              | Some ch => scanstring r' (Raw ch :: acc)
              | None => PErr
              end
        end
      else if code c <? 32 then PErr
      else scanstring r (Raw c :: acc)
  end.

Definition utf8 (u : Z) : list ascii :=
  if u <? 128 then [chr u]
  else if u <? 2048 then [chr (192 + u / 64); chr (128 + u mod 64)]
  else if u <? 65536 then
    [chr (224 + u / 4096); chr (128 + (u / 64) mod 64); chr (128 + u mod 64)]
  else
    [chr (240 + u / 262144); chr (128 + (u / 4096) mod 64);
     chr (128 + (u / 64) mod 64); chr (128 + u mod 64)].

Fixpoint decode_units (us : list sunit) : list ascii :=
  match us with
  | [] => []
  | Raw c :: r => c :: decode_units r
  | Esc u :: r =>
      match r with
      | Esc u2 :: r2 =>
          if (55296 <=? u) && (u <=? 56319) && (56320 <=? u2) && (u2 <=? 57343)
          then utf8 (65536 + ((u - 55296) * 1024 + (u2 - 56320))) ++ decode_units r2
          else utf8 u ++ decode_units r
      | _ => utf8 u ++ decode_units r
      end
  end.

Definition parse_string (s : list ascii) : pr string :=
  match scanstring s [] with
  | POk us r => POk (string_of_list_ascii (decode_units us)) r
  | PErr => PErr
  | PFuel => PFuel
  end.

(** The recursive scanner.  [scan_once] reads one value;
    [object_loop] reads the members of an object from just after the
    opening quote of a key; [array_loop] reads the elements of a
    non-empty array.  Every call consumes one unit of [fuel]. *)
Fixpoint scan_once (fuel : nat) (s : list ascii) : pr pyval :=
  match fuel with
  | O => PFuel
  | S fuel' =>
      match s with
      | [] => PErr
      | c :: r =>
          if Ascii.eqb c DQ then
            match parse_string r with
            | POk str r' => POk (PStr str) r'
            | PErr => PErr
            | PFuel => PFuel
            end
          else if Ascii.eqb c "{" then
            match skip_ws r with
            | d :: r' =>
                if Ascii.eqb d "}" then POk (PDict []) r'
                else if Ascii.eqb d DQ then object_loop fuel' r' []
                else PErr
            | [] => PErr
            end
          else if Ascii.eqb c "[" then
            match skip_ws r with
            | d :: r' =>
                if Ascii.eqb d "]" then POk (PList []) r'
                else array_loop fuel' (d :: r') []
            | [] => PErr
            end
          else scan_atom s
      end
  end
with object_loop (fuel : nat) (s : list ascii) (acc : list (string * pyval))
  : pr pyval :=
  match fuel with
  | O => PFuel
  | S fuel' =>
      match parse_string s with
      | POk key r =>
          match skip_ws r with
          | c :: r1 =>
              if Ascii.eqb c ":" then
                match scan_once fuel' (skip_ws r1) with
                | POk v r2 =>
                    match skip_ws r2 with
                    | d :: r3 =>
                        if Ascii.eqb d "}" then
                          POk (PDict (dict_of_pairs (rev ((key, v) :: acc)))) r3
                        else if Ascii.eqb d "," then
                          match skip_ws r3 with
                          | e :: r4 =>
                              if Ascii.eqb e DQ
                              then object_loop fuel' r4 ((key, v) :: acc)
                              else PErr
                          | [] => PErr
                          end
                        else PErr
                    | [] => PErr
                    end
                | PErr => PErr
                | PFuel => PFuel
                end
              else PErr
          | [] => PErr
          end
      | PErr => PErr
      | PFuel => PFuel
      end
  end
with array_loop (fuel : nat) (s : list ascii) (acc : list pyval) : pr pyval :=
  match fuel with
  | O => PFuel
  | S fuel' =>
      match scan_once fuel' s with
      | POk v r =>
          match skip_ws r with
          | d :: r1 =>
              if Ascii.eqb d "]" then POk (PList (rev (v :: acc))) r1
              else if Ascii.eqb d "," then array_loop fuel' (skip_ws r1) (v :: acc)
              else PErr
          | [] => PErr
          end
      | PErr => PErr
      | PFuel => PFuel
      end
  end.

(** [json.loads(s)]: one value, surrounded by optional whitespace;
    anything else is a [JSONDecodeError].  The fuel given is always
    enough (lemma [json_loads_fuel]), so the last case never arises. *)
Definition json_loads (s : string) : res pyval :=
  let l := list_ascii_of_string s in
  match scan_once (2 * length l + 1) (skip_ws l) with
  | POk v r =>
      match skip_ws r with
      | [] => Ok v
      | _ :: _ => Raise JSONDecodeError
      end
  | PErr => Raise JSONDecodeError
  | PFuel => Raise JSONDecodeError
  end.

(** ** Regular expressions: the backtracking matcher of [re]

    The fragment the patterns of the program use: character classes,
    sequencing, the greedy quantifiers [?] (on a sub-pattern), [*] and
    [+] (on a class), and capturing groups.  [rmatch] tries the
    alternatives in the order of [re]: a greedy quantifier takes as
    much as it can first and gives back on failure. *)
Inductive regex : Type :=
| Eps
| Chr (p : ascii -> bool)
| Seq (r1 r2 : regex)
| Star (p : ascii -> bool)
| Opt (r : regex)
| Group (n : nat) (r : regex).

Definition caps : Type := list (nat * list ascii).

Fixpoint get_group (n : nat) (cs : caps) : list ascii :=
  match cs with
  | [] => []
  | (m, w) :: cs' => if Nat.eqb m n then w else get_group n cs'
  end.

(** The text between two positions, each given by what is left of
    the subject. *)
Definition consumed (s s' : list ascii) : list ascii :=
  firstn (length s - length s') s.

Fixpoint star_greedy {A} (p : ascii -> bool) (s : list ascii)
  (k : list ascii -> option A) : option A :=
  match s with
  | c :: s' =>
      if p c then
        match star_greedy p s' k with
        | Some x => Some x
        | None => k s
        end
      else k s
  | [] => k []
  end.

Fixpoint rmatch {A} (r : regex) (s : list ascii) (cs : caps)
  (k : list ascii -> caps -> option A) : option A :=
  match r with
  | Eps => k s cs
  | Chr p =>
      match s with
      | c :: s' => if p c then k s' cs else None
      | [] => None
      end
  | Seq r1 r2 => rmatch r1 s cs (fun s' cs' => rmatch r2 s' cs' k)
  | Star p => star_greedy p s (fun s' => k s' cs)
  | Opt r' =>
      match rmatch r' s cs k with
      | Some x => Some x
      | None => k s cs
      end
  | Group n r' => rmatch r' s cs (fun s' cs' => k s' ((n, consumed s s') :: cs'))
  end.

(** A match that starts at the head of [s]: what is left, and the groups. *)
Definition match_at (r : regex) (s : list ascii) : option (list ascii * caps) :=
  rmatch r s [] (fun s' cs => Some (s', cs)).

(** The leftmost match in [s]: what is left after it, and the groups. *)
Fixpoint search_from (r : regex) (s : list ascii) : option (list ascii * caps) :=
  match match_at r s with
  | Some m => Some m
  | None =>
      match s with
      | [] => None
      | _ :: s' => search_from r s'
      end
  end.

(** All matches, left to right, without overlap.  Every pattern of the
    program consumes at least one character; [fuel] bounds the number
    of matches by the length of the subject. *)
Fixpoint findall_from (fuel : nat) (r : regex) (s : list ascii) : list caps :=
  match fuel with
  | O => []
  | S fuel' =>
      match search_from r s with
      | None => []
      | Some (s', cs) =>
          cs :: (if (length s' <? length s)%nat then findall_from fuel' r s'
                 else match s' with
                      | [] => []
                      | _ :: s'' => findall_from fuel' r s''
                      end)
      end
  end.

(** [re.search(r, s)], then [.group(n)] of the match. *)
Definition re_search (r : regex) (n : nat) (s : string) : option string :=
  match search_from r (list_ascii_of_string s) with
  | Some (_, cs) => Some (string_of_list_ascii (get_group n cs))
  | None => None
  end.

(** [re.findall(r, s)] for a pattern with two groups: the pairs
    (group 1, group 2) of the matches. *)
Definition re_findall (r : regex) (s : string) : list (string * string) :=
  let l := list_ascii_of_string s in
  map (fun cs => (string_of_list_ascii (get_group 1 cs),
                  string_of_list_ascii (get_group 2 cs)))
      (findall_from (S (length l)) r l).

(** Pattern combinators. *)
Definition Lit (c : ascii) : regex := Chr (Ascii.eqb c).
Definition Plus (p : ascii -> bool) : regex := Seq (Chr p) (Star p).

Fixpoint seqs (rs : list regex) : regex :=
  match rs with
  | [] => Eps
  | [r] => r
  | r :: rs' => Seq r (seqs rs')
  end.

Definition Str (s : string) : regex := seqs (map Lit (list_ascii_of_string s)).

(** Character classes of the patterns. *)
Definition cls_quote (c : ascii) : bool := Ascii.eqb c DQ || Ascii.eqb c "'".
Definition cls_word (c : ascii) : bool :=
  negb (Ascii.eqb c DQ || Ascii.eqb c "'" || Ascii.eqb c ",").
Definition cls_any (c : ascii) : bool := true.

(** An optional minus sign and one or more digits. *)
Definition signed_int : regex := Seq (Opt (Lit "-")) (Plus is_digit).

(** The patterns of the program.  In these comments Q stands for the
    class of the two quote characters, W for one or more characters
    other than a quote or a comma, S for any run of whitespace, and N
    for [signed_int]; groups are numbered as in the source.

    [tuple_pattern o c], lines 138, 181 and 182, with [o] and [c] the
    parentheses or the square brackets:  o Q? (W) Q? , S (N) c  *)
Definition tuple_pattern (open close : ascii) : regex :=
  seqs [Lit open; Opt (Chr cls_quote); Group 1 (Plus cls_word);
        Opt (Chr cls_quote); Lit ","; Star is_space;
        Group 2 signed_int; Lit close].

Definition paren_pattern : regex := tuple_pattern "(" ")".
Definition bracket_pattern : regex := tuple_pattern "[" "]".

(** Line 183:
    { S Q? word Q? S : S Q? (W) Q? S , S Q? score Q? S : S (N) S }  *)
Definition object_pattern : regex :=
  seqs [Lit "{"; Star is_space; Opt (Chr cls_quote); Str "word";
        Opt (Chr cls_quote); Star is_space; Lit ":"; Star is_space;
        Opt (Chr cls_quote); Group 1 (Plus cls_word); Opt (Chr cls_quote);
        Star is_space; Lit ","; Star is_space;
        Opt (Chr cls_quote); Str "score"; Opt (Chr cls_quote);
        Star is_space; Lit ":"; Star is_space;
        Group 2 signed_int; Star is_space; Lit "}"].

Definition patterns : list regex :=
  [paren_pattern; bracket_pattern; object_pattern].

(** Lines 160 and 173: (N) *)
Definition score_pattern : regex := Group 1 signed_int.


(** Line 191: group 1 = an opening brace, any run of characters, a
    closing brace. *)
Definition json_object_pattern : regex :=
  Group 1 (seqs [Lit "{"; Star cls_any; Lit "}"]).

(** ** [int] and [str] *)

Fixpoint drop_space (s : list ascii) : list ascii :=
  match s with
  | c :: r => if is_space c then drop_space r else s
  | [] => []
  end.

Definition strip (s : list ascii) : list ascii :=
  rev (drop_space (rev (drop_space s))).

(** Decimal digits, with single underscores between digits. *)
Fixpoint digits_value (s : list ascii) (acc : Z) (after_digit : bool) : option Z :=
  match s with
  | [] => if after_digit then Some acc else None
  | c :: r =>
      if is_digit c then digits_value r (10 * acc + digit_val c) true
      else if Ascii.eqb c "_" && after_digit then digits_value r acc false
      else None
  end.

(** [int(s)] for a [str]: surrounding whitespace is dropped, then an
    optional sign and a decimal literal; anything else is a
    [ValueError]. *)
Definition int_of_str (s : string) : res Z :=
  match strip (list_ascii_of_string s) with
  | c :: r =>
      let '(neg, ds) :=
        if Ascii.eqb c "-" then (true, r)
        else if Ascii.eqb c "+" then (false, r)
        else (false, c :: r) in
      match digits_value ds 0 false with
      | Some n => Ok (if neg then - n else n)
      | None => Raise ValueError
      end
  | [] => Raise ValueError
  end.

(** [int(v)] *)
Definition py_int (v : pyval) : res Z :=
  match v with
  | PInt n => Ok n
  | PBool b => Ok (if b then 1 else 0)
  | PFloat f => float_trunc f
  | PStr s => int_of_str s
  | PNone | PList _ | PTuple _ | PDict _ => Raise TypeError
  end.

(** Decimal text of an integer. *)
Definition Z_to_str (n : Z) : string :=
  DecimalString.NilZero.string_of_int (Z.to_int n).

(** [repr] of a float: the shortest decimal that reads back as the
    same binary64 (the nearest one, among those of that length), laid
    out as CPython does. *)
Definition sf_eqb (x y : spec_float) : bool :=
  match x, y with
  | S754_zero a, S754_zero b => Bool.eqb a b
  | S754_infinity a, S754_infinity b => Bool.eqb a b
  | S754_nan, S754_nan => true
  | S754_finite a m e, S754_finite b m' e' =>
      Bool.eqb a b && Pos.eqb m m' && (e =? e')
  | _, _ => false
  end.

(** [num / den >= 10^p] *)
Definition ge_pow10 (num den p : Z) : bool :=
  if 0 <=? p then den * 10 ^ p <=? num else den <=? num * 10 ^ (- p).

Fixpoint raise_exp10 (fuel : nat) (num den p : Z) : Z :=
  match fuel with
  | O => p
  | S fuel' =>
      if ge_pow10 num den (p + 1) then raise_exp10 fuel' num den (p + 1) else p
  end.

(** The [p] with [10^p <= num / den < 10^(p+1)]. *)
Definition exp10 (num den : Z) : Z :=
  let l := Z.log2 num - Z.log2 den in
  raise_exp10 8 num den ((l - 1) * 30103 / 100000 - 2).

(** The shortest digits: [(c, k)] with value [c * 10^k]. *)
Fixpoint shortest_digits (fuel : nat) (n : Z) (m : positive) (e : Z)
  (num den p : Z) : Z * Z :=
  let k := p - (n - 1) in
  let '(a, b) := if 0 <=? k then (num, den * 10 ^ k) else (num * 10 ^ (- k), den) in
  let lo := a / b in
  let rm := a mod b in
  match fuel with
  | O => (lo, k)
  | S fuel' =>
      let ok c := sf_eqb (float_of_decimal false c k) (S754_finite false m e) in
      let lo_ok := ok lo in
      let hi_ok := ok (lo + 1) in
      if rm =? 0 then
        if lo_ok then (lo, k) else shortest_digits fuel' (n + 1) m e num den p
      else if lo_ok && hi_ok then
        (if 2 * rm <? b then (lo, k)
         else if b <? 2 * rm then (lo + 1, k)
         else if Z.even lo then (lo, k) else (lo + 1, k))
      else if lo_ok then (lo, k)
      else if hi_ok then (lo + 1, k)
      else shortest_digits fuel' (n + 1) m e num den p
  end.

Fixpoint strip_zeros (fuel : nat) (c k : Z) : Z * Z :=
  match fuel with
  | O => (c, k)
  | S fuel' =>
      if (c mod 10 =? 0) && negb (c =? 0) then strip_zeros fuel' (c / 10) (k + 1)
      else (c, k)
  end.

Fixpoint zeros (n : nat) : string :=
  match n with
  | O => EmptyString
  | S n' => String "0" (zeros n')
  end.

Definition float_repr (f : spec_float) : string :=
  match f with
  | S754_nan => "nan"
  | S754_infinity s => if s then "-inf" else "inf"
  | S754_zero s => if s then "-0.0" else "0.0"
  | S754_finite s m e =>
      let '(num, den) :=
        if 0 <=? e then (Zpos m * 2 ^ e, 1) else (Zpos m, 2 ^ (- e)) in
      let p := exp10 num den in
      let '(c0, k0) := shortest_digits 17 1 m e num den p in
      let '(c, k) := strip_zeros 20 c0 k0 in
      let ds := Z_to_str c in
      let nd := Z.of_nat (String.length ds) in
      let decpt := nd + k in
      let body :=
        if (-4 <? decpt) && (decpt <=? 16) then
          if decpt <=? 0 then
            String.append "0." (String.append (zeros (Z.to_nat (- decpt))) ds)
          else if nd <=? decpt then
            String.append ds (String.append (zeros (Z.to_nat (decpt - nd))) ".0")
          else
            String.append (substring 0 (Z.to_nat decpt) ds)
              (String "." (substring (Z.to_nat decpt) (Z.to_nat (nd - decpt)) ds))
        else
          let x := decpt - 1 in
          let xs := Z_to_str (Z.abs x) in
          let xs := if Z.abs x <? 10 then String "0" xs else xs in
          let mant :=
            if nd =? 1 then ds
            else String.append (substring 0 1 ds)
                   (String "." (substring 1 (Z.to_nat (nd - 1)) ds)) in
          String.append mant
            (String "e" (String (if x <? 0 then "-"%char else "+"%char) xs)) in
      if s then String "-" body else body
  end.

(** [repr] of a [str]: single quotes, unless the text has a single
    quote and no double quote; backslash, the quote and control
    characters are escaped. *)
Definition hex_digit (n : Z) : ascii :=
  if n <? 10 then chr (48 + n) else chr (87 + n).

Definition str_repr (s : string) : string :=
  let l := list_ascii_of_string s in
  let has c := existsb (Ascii.eqb c) l in
  let quote := if has "'"%char && negb (has DQ) then DQ else "'"%char in
  let esc c :=
    if Ascii.eqb c quote || Ascii.eqb c "\" then ["\"%char; c]
    else if Ascii.eqb c "009" then ["\"; "t"]%char
    else if Ascii.eqb c "010" then ["\"; "n"]%char
    else if Ascii.eqb c "013" then ["\"; "r"]%char
    else if (code c <? 32) || (code c =? 127) then
      ["\"%char; "x"%char; hex_digit (code c / 16); hex_digit (code c mod 16)]
    else [c] in
  string_of_list_ascii (quote :: flat_map esc l ++ [quote]).

Fixpoint join (sep : string) (l : list string) : string :=
  match l with
  | [] => EmptyString
  | [x] => x
  | x :: l' => String.append x (String.append sep (join sep l'))
  end.

Fixpoint py_repr (v : pyval) : string :=
  match v with
  | PNone => "None"
  | PBool b => if b then "True" else "False"
  | PInt n => Z_to_str n
  | PFloat f => float_repr f
  | PStr s => str_repr s
  | PList l => String.append "[" (String.append (join ", " (map py_repr l)) "]")
  | PTuple l =>
      match l with
      | [x] => String.append "(" (String.append (py_repr x) ",)")
      | _ => String.append "(" (String.append (join ", " (map py_repr l)) ")")
      end
  | PDict d =>
      String.append "{"
        (String.append
           (join ", " (map (fun kv => String.append (str_repr (fst kv))
                                        (String.append ": " (py_repr (snd kv)))) d))
           "}")
  end.

(** [str(v)] *)
Definition py_str (v : pyval) : string :=
  match v with
  | PStr s => s
  | _ => py_repr v
  end.

(** [type(v)], as it prints. *)
Definition type_name (v : pyval) : string :=
  match v with
  | PNone => "<class 'NoneType'>"
  | PBool _ => "<class 'bool'>"
  | PInt _ => "<class 'int'>"
  | PFloat _ => "<class 'float'>"
  | PStr _ => "<class 'str'>"
  | PList _ => "<class 'list'>"
  | PTuple _ => "<class 'tuple'>"
  | PDict _ => "<class 'dict'>"
  end.

(** ** Operations on values *)

Definition exn_eqb (a b : exn) : bool :=
  match a, b with
  | JSONDecodeError, JSONDecodeError | AttributeError, AttributeError
  | KeyError, KeyError | IndexError, IndexError | TypeError, TypeError
  | ValueError, ValueError | OverflowError, OverflowError
  | StopIteration, StopIteration | OSError, OSError
  | RuntimeError, RuntimeError => true
  | _, _ => false
  end.

(** [except cls] catches [cls] and its subclasses; [JSONDecodeError]
    derives from [ValueError]. *)
Definition subclass (e cls : exn) : bool :=
  exn_eqb e cls || (exn_eqb e JSONDecodeError && exn_eqb cls ValueError).

(** [try: body  except cls: handler] *)
Definition try_except {A} (body : res A) (cls : exn) (handler : res A) : res A :=
  match body with
  | Ok a => Ok a
  | Raise e => if subclass e cls then handler else Raise e
  end.

(** [v.get(k, dflt)]: only a [dict] has the method. *)
Definition py_get (v : pyval) (k : string) (dflt : pyval) : res pyval :=
  match v with
  | PDict d => Ok (match dict_get d k with Some x => x | None => dflt end)
  | _ => Raise AttributeError
  end.

(** [v[k]] for a [str] key. *)
Definition getitem_str (v : pyval) (k : string) : res pyval :=
  match v with
  | PDict d => match dict_get d k with Some x => Ok x | None => Raise KeyError end
  | _ => Raise TypeError
  end.

(** [v[i]] for [i] = 0 or 1.  The keys of a [dict] are texts, so an
    integer key is never present. *)
Definition getitem_nat (v : pyval) (i : nat) : res pyval :=
  match v with
  | PList l | PTuple l =>
      match nth_error l i with Some x => Ok x | None => Raise IndexError end
  | PStr s =>
      match String.get i s with
      | Some c => Ok (PStr (String c EmptyString))
      | None => Raise IndexError
      end
  | PDict _ => Raise KeyError
  | _ => Raise TypeError
  end.

Fixpoint is_infix (p s : list ascii) : bool :=
  match strip_prefix p s with
  | Some _ => true
  | None => match s with
            | [] => false
            | _ :: s' => is_infix p s'
            end
  end.

(** [k in v] for a text [k]. *)
Definition py_in (k : string) (v : pyval) : res bool :=
  match v with
  | PDict d => Ok (dict_has d k)
  | PList l | PTuple l =>
      Ok (existsb (fun x => match x with PStr s => String.eqb s k | _ => false end) l)
  | PStr s => Ok (is_infix (list_ascii_of_string k) (list_ascii_of_string s))
  | _ => Raise TypeError
  end.

(** ** The response parser *)


(** [[(word, int(score)) for word, score in tuples]], lines 139 and 189. *)
Definition tuples_to_scores (tuples : list (string * string)) : res pyval :=
  do l <- mapM (fun ws => do n <- int_of_str (snd ws);
                          Ok (PTuple [PStr (fst ws); PInt n])) tuples;
  Ok (PList l).

(** [[(item["word"], int(item[key])) for item in word_score_list]],
    lines 143 and 145. *)
Definition scores_by_key (key : string) (l : list pyval) : res pyval :=
  do r <- mapM (fun item => do w <- getitem_str item "word";
                            do s <- getitem_str item key;
                            do n <- py_int s;
                            Ok (PTuple [w; PInt n])) l;
  Ok (PList r).

(** [[(str(item[0]), int(item[1])) for item in word_score_list]], line 147. *)
Definition scores_by_position (l : list pyval) : res pyval :=
  do r <- mapM (fun item => do w <- getitem_nat item 0;
                            do s <- getitem_nat item 1;
                            do n <- py_int s;
                            Ok (PTuple [PStr (py_str w); PInt n])) l;
  Ok (PList r).

(** Lines 137-147, the dispatch on the shape of [word_score_list]:
    [Some r] when a [return] is reached or an exception raised, [None]
    when control reaches line 149. *)
Definition direct_scores (word_score_list : pyval) : option (res pyval) :=
  match word_score_list with
  | PStr s => Some (tuples_to_scores (re_findall paren_pattern s))
  | PList l =>
      match l with
      | PDict d0 :: _ =>
          if dict_has d0 "word" && dict_has d0 "score"
          then Some (scores_by_key "score" l)
          else if dict_has d0 "word" && dict_has d0 "Score"
          then Some (scores_by_key "Score" l)
          else None
      | PList _ :: _ | PTuple _ :: _ => Some (scores_by_position l)
      | _ => None
      end
  | _ => None
  end.

(** Lines 156-161 and 169-174: a score that is a text is converted by
    [int]; when that fails, the first signed integer in the text is
    taken, and 0 when there is none.  Any other score is kept. *)
Definition text_score (score : pyval) : res pyval :=
  match score with
  | PStr s =>
      try_except
        (do n <- int_of_str s; Ok (PInt n))
        ValueError
        (match re_search score_pattern 1 s with
         | Some g => do n <- int_of_str g; Ok (PInt n)
         | None => Ok (PInt 0)
         end)
  | _ => Ok score
  end.

(** [next((k for k in item.keys() if k.lower() in names), None)] *)
Definition find_key (names : list string) (d : list (string * pyval))
  : option string :=
  List.find (fun k => existsb (String.eqb (str_lower k)) names) (dict_keys d).

(** Lines 152-175, one round of the loop: the pair to append, if any. *)
Definition fallback_item (item : pyval) : res (option pyval) :=
  match item with
  | PList l | PTuple l =>
      if (2 <=? length l)%nat then
        do w <- getitem_nat item 0;
        do s <- getitem_nat item 1;
        do score <- text_score s;
        Ok (Some (PTuple [PStr (py_str w); score]))
      else Ok None
  | PDict d =>
      if (2 <=? length d)%nat then
        match find_key ["word"; "token"]%string d,
              find_key ["score"; "value"]%string d with
        | Some word_key, Some score_key =>
            do w <- getitem_str item word_key;
            do s <- getitem_str item score_key;
            do score <- text_score s;
            Ok (Some (PTuple [PStr (py_str w); score]))
        | _, _ => Ok None
        end
      else Ok None
  | _ => Ok None
  end.

Fixpoint fallback_loop (l : list pyval) (result : list pyval) : res (list pyval) :=
  match l with
  | [] => Ok result
  | item :: l' =>
      do r <- fallback_item item;
      fallback_loop l' (match r with Some p => result ++ [p] | None => result end)
  end.

(** Lines 150-178. *)
Definition fallback_scores (word_score_list : pyval) : res pyval :=
  match word_score_list with
  | PList l => do result <- fallback_loop l []; Ok (PList result)
  | _ => Ok (PList [])
  end.

(** Line 149. *)
Definition fallback_warning (word_score_list : pyval) : string :=
  String.append "Warning: Using fallback extraction for format: "
                (type_name word_score_list).

(** Lines 135-178, after [json.loads] has returned: the lines printed
    and the outcome. *)
Definition scores_of_json (response_dict : pyval) : list string * res pyval :=
  match py_get response_dict "word_score_list" (PList []) with
  | Raise e => ([], Raise e)
  | Ok word_score_list =>
      match direct_scores word_score_list with
      | Some r => ([], r)
      | None => ([fallback_warning word_score_list],
                 fallback_scores word_score_list)
      end
  end.

(** Lines 180-189: the matches of the first pattern that has any. *)
Fixpoint first_matches (ps : list regex) (response : string)
  : option (list (string * string)) :=
  match ps with
  | [] => None
  | p :: ps' =>
      match re_findall p response with
      | [] => first_matches ps' response
      | tuples => Some tuples
      end
  end.

(** Lines 132-201.  The function calls itself at line 197; [fuel]
    bounds the depth of the calls, and [None] means that the bound was
    reached.  The result is the lines printed and the outcome. *)
Fixpoint extract_word_scores_fuel (fuel : nat) (response : string)
  : option (list string * res pyval) :=
  match fuel with
  | O => None
  | S fuel' =>
      match json_loads response with
      | Ok response_dict => Some (scores_of_json response_dict)
      | Raise e =>
          if subclass e JSONDecodeError then
            match first_matches patterns response with
            | Some tuples => Some ([], tuples_to_scores tuples)
            | None =>
                match re_search json_object_pattern 1 response with
                | Some json_str =>
                    match json_loads json_str with
                    | Ok json_data =>
                        match py_in "word_score_list" json_data with
                        | Ok true => extract_word_scores_fuel fuel' json_str
                        | Ok false => Some ([], Ok (PList []))
                        | Raise e' =>
                            if subclass e' JSONDecodeError
                            then Some ([], Ok (PList []))
                            else Some ([], Raise e')
                        end
                    | Raise e' =>
                        if subclass e' JSONDecodeError
                        then Some ([], Ok (PList []))
                        else Some ([], Raise e')
                    end
                | None => Some ([], Ok (PList []))
                end
            end
          else Some ([], Raise e)
      end
  end.

(** The call [extract_word_scores(response)]: two levels of calls are
    always enough, as is proved below. *)
Definition extract_word_scores (response : string)
  : option (list string * res pyval) :=
  extract_word_scores_fuel 2 response.

(** ** The run driver *)

(** The command line, [parse_args]. *)
Record args : Type := {
  model_path : string;
  data_path : string;
  output_path : string;
  batch_size : Z;
  max_samples : Z;
  max_new_tokens : Z;
  temperature : spec_float;
  gpu_ids : string
}.

(** What the run does not control.
    - [load_and_prepare_model p]: loading the model and the tokenizer
      from [p], which may raise;
    - [read_file p]: the text of the file, or the exception of [open];
    - [process_batch batch max_new_tokens temperature]: the batch
      generator with the loaded model, the boundary at which
      generation is stubbed; it returns the decoded responses or
      raises;
    - [write_json n p doc]: the [n]-th attempt ([n] = 0, 1) to open
      [p] for writing and [json.dump] the document into it;
    - [draws i]: the [i]-th number drawn by [random.sample]. *)
Record env : Type := {
  load_and_prepare_model : string -> res unit;
  read_file : string -> res string;
  process_batch : list pyval -> Z -> spec_float -> res (list string);
  write_json : nat -> string -> pyval -> res unit;
  draws : nat -> nat
}.

(** What a run can be seen to do: the lines it prints, each
    constructor standing for the [print] calls of one place of [main],
    and what it does to files. *)
Inductive event : Type :=
| EvLoading                      (* line 211 *)
| EvDataType (ty : string)       (* line 215 *)
| EvTotal (n : nat)              (* line 216 *)
| EvFirstItem (key : string) (value : pyval)   (* line 220 *)
| EvLoadError (e : exn)          (* line 222 *)
| EvSampling                     (* line 225 *)
| EvSampled (n : nat)            (* line 234 *)
| EvSampleError (e : exn)        (* line 236 *)
| EvBatch (number : Z)           (* lines 245-247 *)
| EvPost (post : pyval)          (* line 248 *)
| EvSummary (summary : pyval)    (* line 249 *)
| EvResponse (response : string) (* line 250 *)
| EvParser (lines : list string) (* what extract_word_scores prints *)
| EvWordScores (shown : list pyval) (more : option nat)
                                 (* lines 254-259 *)
| EvWordScoresError (e : exn)    (* line 261 *)
| EvBatchEnd                     (* line 262 *)
| EvOpen (path : string)         (* open(path, "w"), lines 273 and 280 *)
| EvFile (path : string) (doc : pyval)
                                 (* a completed json.dump, lines 274 and 281 *)
| EvSaved (path : string)        (* line 275 *)
| EvSaveError (e : exn)          (* line 277 *)
| EvBackupSaved (path : string)  (* line 282 *)
| EvBackupFailed.                (* line 284 *)

(** A step of the run: the events so far and the outcome. *)
Definition W (A : Type) : Type := list event * res A.

Definition ret {A} (a : A) : W A := ([], Ok a).
Definition emit (e : event) : W unit := ([e], Ok tt).
Definition lift {A} (r : res A) : W A := ([], r).

Definition bindW {A B} (m : W A) (k : A -> W B) : W B :=
  match m with
  | (o, Ok a) => let '(o', r) := k a in (o ++ o', r)
  | (o, Raise e) => (o, Raise e)
  end.

Notation "'run' x <- m ; k" := (bindW m (fun x => k))
  (at level 10, x name, m at level 100, k at level 200).

(** [try: body  except Exception as e: handler(e)] *)
Definition try_exceptW {A} (body : W A) (handler : exn -> W A) : W A :=
  match body with
  | (o, Ok a) => (o, Ok a)
  | (o, Raise e) => let '(o', r) := handler e in (o ++ o', r)
  end.

(** [len(v)] *)
Definition py_len (v : pyval) : res nat :=
  match v with
  | PStr s => Ok (String.length s)
  | PList l | PTuple l => Ok (length l)
  | PDict d => Ok (length d)
  | _ => Raise TypeError
  end.

(** [v[:n]] *)
Definition py_prefix (v : pyval) (n : nat) : res pyval :=
  match v with
  | PStr s => Ok (PStr (substring 0 n s))
  | PList l => Ok (PList (firstn n l))
  | PTuple l => Ok (PTuple (firstn n l))
  | _ => Raise TypeError
  end.

(** [random.sample(population, k)]: [k] elements at distinct positions,
    chosen by the draws.  The selection follows the pool algorithm of
    CPython: the [i]-th element is taken at a position drawn below
    [n - i], and the last element of the pool is moved into its place.
    (For a large population CPython draws positions and rejects the
    repeated ones instead; the outcomes are the same selections.) *)
Fixpoint sample_pool {A} (rnd : nat -> nat) (n k i : nat) (pool : list A)
  : list A :=
  match k with
  | O => []
  | S k' =>
      let j := (rnd i mod (n - i))%nat in
      match pool !! j, pool !! (n - i - 1)%nat with
      | Some x, Some y => x :: sample_pool rnd n k' (S i) (<[j := y]> pool)
      | _, _ => []
      end
  end.

Definition random_sample {A} (rnd : nat -> nat) (population : list A) (k : Z)
  : res (list A) :=
  let n := length population in
  if (k <? 0) || (Z.of_nat n <? k) then Raise ValueError
  else Ok (sample_pool rnd n (Z.to_nat k) 0 population).

(** Lines 212-223, the body of the [try]. *)
Definition load_data (a : args) (w : env) : W pyval :=
  run text <- lift (read_file w (data_path a));
  run val_data <- lift (json_loads text);
  run _ <- emit (EvDataType (type_name val_data));
  run n <- lift (py_len val_data);
  run _ <- emit (EvTotal n);
  run _ <- match val_data with
      | PDict d =>
          match d with
          | (first_key, v) :: _ => emit (EvFirstItem first_key v)
          | [] => lift (Raise StopIteration)
          end
      | _ => ret tt
      end;
  ret val_data.

(** Lines 227-232: the keys or indices selected, and the data at them. *)
Definition sample_keys (a : args) (w : env) (d : list (string * pyval))
  : res (list string) :=
  random_sample (draws w) (dict_keys d) (Z.min (max_samples a) (Z.of_nat (length d))).

Definition sample_indices (a : args) (w : env) (n : nat) : res (list nat) :=
  random_sample (draws w) (seq 0 n) (Z.min (max_samples a) (Z.of_nat n)).

(** Lines 227-234, the body of the [try]. *)
Definition sample_data (a : args) (w : env) (val_data : pyval) : W (list pyval) :=
  run sampled_data <-
    lift match val_data with
         | PDict d =>
             do keys <- sample_keys a w d;
             mapM (getitem_str val_data) keys
         | _ =>
             do n <- py_len val_data;
             do indices <- sample_indices a w n;
             mapM (getitem_nat val_data) indices
         end;
  run _ <- emit (EvSampled (length sampled_data));
  ret sampled_data.

(** [range(0, stop, step)] *)
Definition py_range (stop : nat) (step : Z) : res (list nat) :=
  if step =? 0 then Raise ValueError
  else if step <? 0 then Ok []
  else
    let st := Z.to_nat step in
    Ok (map (fun c => (c * st)%nat) (seq 0 ((stop + st - 1) / st)%nat)).

(** Lines 252-261: the preview of the word scores of one response. *)
Definition preview_word_scores (response : string) : W unit :=
  try_exceptW
    (match extract_word_scores response with
     | Some (lines, r) =>
         run _ <- emit (EvParser lines);
         run word_scores <- lift r;
         match word_scores with
         | PList l =>
             emit (EvWordScores (firstn 10 l)
                     (if (10 <? length l)%nat then Some (length l - 10)%nat
                      else None))
         | _ => lift (Raise TypeError)
         end
     | None => lift (Raise RuntimeError)
     end)
    (fun e => emit (EvWordScoresError e)).

(** Lines 264-270: the records of one batch. *)
Fixpoint batch_records (i : nat) (batch_data : list pyval) (responses : list string)
  : res (list pyval) :=
  match batch_data, responses with
  | data :: batch_data', response :: responses' =>
      do post <- getitem_str data "post";
      do summary <- getitem_str data "generated_summary";
      do rest <- batch_records (S i) batch_data' responses';
      Ok (PDict [("index", PInt (Z.of_nat i)); ("original_post", post);
                 ("generated_summary", summary);
                 ("model_response", PStr response)]%string :: rest)
  | _, _ => Ok []
  end.

(** Lines 242-270, one round of the loop over the batches. *)
Definition run_batch (a : args) (w : env) (sampled_data : list pyval)
  (results : list pyval) (i : nat) : W (list pyval) :=
  let batch_data := firstn (Z.to_nat (batch_size a)) (skipn i sampled_data) in
  run responses <-
    lift (process_batch w batch_data (max_new_tokens a) (temperature a));
  run _ <- emit (EvBatch (Z.of_nat i / batch_size a + 1));
  run first <- lift (match batch_data with
                     | d :: _ => Ok d
                     | [] => Raise IndexError
                     end);
  run post <- lift (getitem_str first "post");
  run post100 <- lift (py_prefix post 100);
  run _ <- emit (EvPost post100);
  run summary <- lift (getitem_str first "generated_summary");
  run _ <- emit (EvSummary summary);
  run response0 <- lift (match responses with
                         | r :: _ => Ok r
                         | [] => Raise IndexError
                         end);
  run _ <- emit (EvResponse (substring 0 200 response0));
  run _ <- preview_word_scores response0;
  run _ <- emit EvBatchEnd;
  run records <- lift (batch_records i batch_data responses);
  ret (results ++ records).

Fixpoint batch_loop (a : args) (w : env) (sampled_data : list pyval)
  (starts : list nat) (results : list pyval) : W (list pyval) :=
  match starts with
  | [] => ret results
  | i :: starts' =>
      run results' <- run_batch a w sampled_data results i;
      batch_loop a w sampled_data starts' results'
  end.

(** Lines 239-270. *)
Definition run_batches (a : args) (w : env) (sampled_data : list pyval)
  : W (list pyval) :=
  run starts <- lift (py_range (length sampled_data) (batch_size a));
  batch_loop a w sampled_data starts [].

Definition backup_path : string := "./evaluation_results_backup.json".

(** [with open(path, "w") as f: json.dump(doc, f, indent=2)] *)
Definition write_file (w : env) (attempt : nat) (path : string) (doc : pyval)
  : W unit :=
  run _ <- emit (EvOpen path);
  run _ <- lift (write_json w attempt path doc);
  emit (EvFile path doc).

(** Lines 272-284. *)
Definition save_results (a : args) (w : env) (results : list pyval) : W unit :=
  try_exceptW
    (run _ <- write_file w 0 (output_path a) (PList results);
     emit (EvSaved (output_path a)))
    (fun e =>
       run _ <- emit (EvSaveError e);
       try_exceptW
         (run _ <- write_file w 1 backup_path (PList results);
          emit (EvBackupSaved backup_path))
         (fun _ => emit EvBackupFailed)).

(** Lines 204-284.  The outcome [Ok tt] is a normal return of [main];
    [Raise e] is an exception that leaves it. *)
Definition main (a : args) (w : env) : W unit :=
  run _ <- lift (load_and_prepare_model w (model_path a));
  run _ <- emit EvLoading;
  run loaded <- try_exceptW
                  (run v <- load_data a w; ret (Some v))
                  (fun e => run _ <- emit (EvLoadError e); ret None);
  match loaded with
  | None => ret tt
  | Some val_data =>
      run _ <- emit EvSampling;
      run sampled <- try_exceptW
                       (run l <- sample_data a w val_data; ret (Some l))
                       (fun e => run _ <- emit (EvSampleError e); ret None);
      match sampled with
      | None => ret tt
      | Some sampled_data =>
          run results <- run_batches a w sampled_data;
          save_results a w results
      end
  end.

(** ** The prompt builder *)

(** The line feed, and texts written line by line: [lines ls] is
    every line of [ls] followed by a line feed. *)
Definition LF : string := String "010"%char EmptyString.

Definition cat (l : list string) : string :=
  fold_right String.append EmptyString l.

Definition lines (ls : list string) : string :=
  cat (map (fun l => String.append l LF) ls).

(** Lines 12-40.  The text is not an f-string: each of its doubled
    braces is two characters. *)
Definition SYSTEM_PROMPT : string :=
  String.append LF (lines
    ["Your should evaluate the generated summary based on the original post.";
     "  1. Please firstly give textual feedback about the quality of the summary.";
     "  2. After that, please assign scores to each word in the generated summary based on the textual feedback.";
     "";
     "# The Scoring Rules is:";
     "  - -1: The word has a negative contribution to summarizing the original content.";
     "  - 0: The word has a neutral contribution to summarizing the original content.";
     "  - 1: The word has a positive contribution to summarizing the original content.";
     "";
     "# Input Format";
     "Input data is structured as JSON with the following fields:";
     "{{";
     q "  `original_post`: `The text of the original Reddit post.`,";
     q "  `generated_summary`: `The text of the summary generated by the model.`,";
     "}}";
     "";
     "# Output Format";
     "{{";
     q "  `textual_feedback`:`feedback indicating missing, incorrect, or unnecessary content in the generated summary.`,";
     q "  `word_score_list`:";
     "    [";
     q "    ( `word1`, `Score (-1 or 0 or 1)`),";
     q "    ( `word2`, `Score (-1 or 0 or 1)`),";
     "    ...";
     "    ]";
     "}}";
     ""]%string).

(** Lines 80-83, the object of the template: an f-string, so each
    doubled brace is one character, and the two texts are put between
    the quotes as they are. *)
Definition input_object (post summary : string) : string :=
  cat [lines ["{"]%string;
       q "  `original_post`: `"; post; lines [q "`,"];
       q "  `generated_summary`: `"; summary; lines [q "`"];
       "}"%string].

(** Lines 79-87. *)
Definition question (post summary : string) : string :=
  cat [lines ["# Input"]%string;
       input_object post summary;
       lines [""; "";
              "# Output";
              "Please score each word in generated_summary based on original_post and the feedback of generated_summary, and output the responses as a JSON Dictionary without any extra information:"]%string].

(** Lines 78-91.  A replacement field of an f-string formats its
    value as [str] does. *)
Definition prepare_input (post summary : pyval) : string :=
  cat [lines ["<|begin_of_text|><|start_header_id|>system<|end_header_id|>"]%string;
       SYSTEM_PROMPT;
       lines ["<|eot_id|><|start_header_id|>user<|end_header_id|>"]%string;
       question (py_str post) (py_str summary);
       lines [" "; "<|eot_id|><|start_header_id|>assistant<|end_header_id|>"]%string].

(** ** The batch generator *)

(** [s.strip()] *)
Definition py_strip (s : string) : string :=
  string_of_list_ascii (strip (list_ascii_of_string s)).

Module Generator.
Section Model.

(** The language model with its tokenizer, which the program takes
    from a library.
    - [generate prompts max_new_tokens temperature], lines 96-105:
      the prompts are tokenized and the model generates one output
      sequence for each; the call may raise;
    - [decode o], lines 109-112: the text of the tokens of [o] that
      follow the prompt, special tokens left out. *)
Variable output : Type.
Variable generate : list string -> Z -> spec_float -> res (list output).
Variable decode : output -> res string.

(** Line 95. *)
Definition prompts (batch_data : list pyval) : res (list string) :=
  mapM (fun data => do post <- getitem_str data "post";
                    do summary <- getitem_str data "generated_summary";
                    Ok (prepare_input post summary)) batch_data.

(** Lines 107-116: the lines printed and the responses collected. *)
Fixpoint decode_loop (outputs : list output) (responses : list string)
  : list string * res (list string) :=
  match outputs with
  | [] => ([], Ok responses)
  | o :: outputs' =>
      match decode o with
      | Ok text =>
          let response := py_strip text in
          let '(printed, r) := decode_loop outputs' (responses ++ [response]) in
          (response :: printed, r)
      | Raise e => ([], Raise e)
      end
  end.

(** Lines 94-118: the lines printed and the outcome. *)
Definition process_batch (batch_data : list pyval) (max_new_tokens : Z)
  (temperature : spec_float) : list string * res (list string) :=
  match prompts batch_data with
  | Ok ps =>
      match generate ps max_new_tokens temperature with
      | Ok outputs => decode_loop outputs []
      | Raise e => ([], Raise e)
      end
  | Raise e => ([], Raise e)
  end.

End Model.
End Generator.


(** ** Specification-level definitions *)

(** What a successful match of [r] is: from [s] with groups [cs] to
    what is left [s'] with groups [cs']. *)
Fixpoint rel (r : regex) (s : list ascii) (cs : caps) (s' : list ascii)
  (cs' : caps) : Prop :=
  match r with
  | Eps => s' = s /\ cs' = cs
  | Chr p => exists c, s = c :: s' /\ p c = true /\ cs' = cs
  | Seq r1 r2 => exists s1 cs1, rel r1 s cs s1 cs1 /\ rel r2 s1 cs1 s' cs'
  | Star p => exists w, s = w ++ s' /\ forallb p w = true /\ cs' = cs
  | Opt r' => rel r' s cs s' cs' \/ (s' = s /\ cs' = cs)
  | Group n r' =>
      exists cs1, rel r' s cs s' cs1 /\ cs' = (n, consumed s s') :: cs1
  end.








(** The events that touch a file. *)
Definition is_file_event (e : event) : bool :=
  match e with
  | EvOpen _ | EvFile _ _ => true
  | _ => false
  end.

(** A step that touches no file. *)
Definition quiet {A} (m : W A) : Prop :=
  Forall (fun e => is_file_event e = false) (fst m).

(** The files a run has written, in order. *)
Fixpoint files_written (evs : list event) : list (string * pyval) :=
  match evs with
  | [] => []
  | EvFile p doc :: evs' => (p, doc) :: files_written evs'
  | _ :: evs' => files_written evs'
  end.

(** The paths a run has opened for writing, in order. *)
Fixpoint opened (evs : list event) : list string :=
  match evs with
  | [] => []
  | EvOpen p :: evs' => p :: opened evs'
  | _ :: evs' => opened evs'
  end.

(** A Sample of the dataset: a mapping with a text under [post] and a
    text under [generated_summary]. *)
Definition is_sample (data : pyval) : Prop :=
  exists d post summary,
    data = PDict d /\ dict_get d "post" = Some (PStr post) /\
    dict_get d "generated_summary" = Some (PStr summary).

Definition field (data : pyval) (k : string) : pyval :=
  match data with
  | PDict d => match dict_get d k with Some v => v | None => PNone end
  | _ => PNone
  end.

(** The EvaluationRecord of the sample processed at position [i]. *)
Definition evaluation_record (i : nat) (data : pyval) (response : string) : pyval :=
  PDict [("index", PInt (Z.of_nat i));
         ("original_post", field data "post");
         ("generated_summary", field data "generated_summary");
         ("model_response", PStr response)]%string.

(** The records of the samples [l], processed from position [i] on. *)
Fixpoint records_from (stub : pyval -> string) (i : nat) (l : list pyval)
  : list pyval :=
  match l with
  | [] => []
  | data :: l' => evaluation_record i data (stub data) :: records_from stub (S i) l'
  end.


(** ** Example runs *)

(** A dataset of three Samples, as the text of the data file. *)
Definition example_text : string :=
  q "[{`post`: `p1`, `generated_summary`: `s1`}, {`post`: `p2`, `generated_summary`: `s2`}, {`post`: `p3`, `generated_summary`: `s3`}]".

Definition example_samples : list pyval :=
  [PDict [("post", PStr "p1"); ("generated_summary", PStr "s1")];
   PDict [("post", PStr "p2"); ("generated_summary", PStr "s2")];
   PDict [("post", PStr "p3"); ("generated_summary", PStr "s3")]]%string.

(** The stubbed generator: a fixed text for each sample. *)
Definition example_stub (data : pyval) : string :=
  String.append "{}, for " (py_str (field data "post")).

Definition example_args (max_samples batch_size : Z) : args :=
  {| model_path := "ckpt"; data_path := "data.json"; output_path := "out.json";
     batch_size := batch_size; max_samples := max_samples;
     max_new_tokens := 512; temperature := S754_zero false; gpu_ids := "0" |}.

(** A run environment with the example dataset and the stubbed
    generator; [writable n] says whether the [n]-th write succeeds. *)
Definition example_env (writable : nat -> bool) : env :=
  {| load_and_prepare_model := fun _ => Ok tt;
     read_file := fun _ => Ok example_text;
     process_batch := fun batch _ _ => Ok (map example_stub batch);
     write_json := fun n _ _ => if writable n then Ok tt else Raise OSError;
     draws := fun i => (2 * i + 1)%nat |}.

(** ** Predicates of the further properties *)

(** An item of [word_score_list] that is a sequence: a word first,
    then a score that [int] turns into [snd p]. *)
Definition pair_item (item : pyval) (p : string * Z) : Prop :=
  exists w s rest,
    item = PList (w :: s :: rest) /\ py_str w = fst p /\ py_int s = Ok (snd p).





(** The values that have no length. *)
Definition no_len (v : pyval) : bool :=
  match v with
  | PNone | PBool _ | PInt _ | PFloat _ => true
  | _ => false
  end.

(** A run environment that reads [text] as the data file and whose
    generator returns the response [stub data] for each item. *)
Definition stub_env (text : string) (stub : pyval -> string) : env :=
  {| load_and_prepare_model := fun _ => Ok tt;
     read_file := fun _ => Ok text;
     process_batch := fun batch _ _ => Ok (map stub batch);
     write_json := fun _ _ _ => Ok tt;
     draws := fun i => i |}.

(** A run environment as [stub_env], but whose generator raises on
    every batch that holds an item with [bad]. *)
Definition failing_env (text : string) (stub : pyval -> string)
  (bad : pyval -> bool) : env :=
  {| load_and_prepare_model := fun _ => Ok tt;
     read_file := fun _ => Ok text;
     process_batch := fun batch _ _ =>
       if existsb bad batch then Raise RuntimeError else Ok (map stub batch);
     write_json := fun _ _ _ => Ok tt;
     draws := fun i => i |}.

(** The items whose post is the text [p]. *)
Definition has_post (p : string) (data : pyval) : bool :=
  match field data "post" with
  | PStr s => String.eqb s p
  | _ => false
  end.

(** An item of a batch from which a prompt can be built: a mapping
    with the keys [post] and [generated_summary]. *)
Definition has_fields (data : pyval) : Prop :=
  exists d post summary,
    data = PDict d /\ dict_get d "post" = Some post /\
    dict_get d "generated_summary" = Some summary.

(** The prompt of an item. *)
Definition prompt_of (data : pyval) : string :=
  prepare_input (field data "post") (field data "generated_summary").




(** The characters that a JSON string literal holds as they are:
    anything but the double quote, the backslash and the control
    characters. *)
Definition json_plain_char (c : ascii) : bool :=
  negb (Ascii.eqb c DQ) && negb (Ascii.eqb c "\") && negb (code c <? 32).

Definition json_plain (s : string) : bool :=
  forallb json_plain_char (list_ascii_of_string s).

(** What stands between the two texts in the object of the prompt. *)
Definition between_texts : string :=
  cat [lines [q "`,"]; q "  `generated_summary`: `"].

(** ** The matcher is sound *)




(** A match consumes a prefix of the subject. *)
Lemma rel_suffix r : forall s cs s' cs',
  rel r s cs s' cs' -> exists w, s = w ++ s'.
Proof.
  induction r as [|p|r1 IH1 r2 IH2|p|r IH|n r IH]; simpl; intros s cs s' cs' H.
  - destruct H as [-> _]. by exists [].
  - destruct H as (c & -> & _). by exists [c].
  - destruct H as (s1 & cs1 & H1 & H2).
    apply IH1 in H1 as [w1 ->]. apply IH2 in H2 as [w2 ->].
    exists (w1 ++ w2). by rewrite <- app_assoc.
  - destruct H as (w & -> & _). by exists w.
  - destruct H as [H|[-> _]]; [eauto|by exists []].
  - destruct H as (cs1 & H & _). eauto.
Qed.












(** ** [int] accepts what [signed_int] matches *)









(** ** The patterns never fail to convert a captured score *)





(** ** The structure of [extract_word_scores] *)

Lemma json_loads_error s e : json_loads s = Raise e -> e = JSONDecodeError.
Proof.
  unfold json_loads.
  destruct (scan_once _ _) as [v r| |]; [destruct (skip_ws r)|..]; congruence.
Qed.

Lemma extract_word_scores_fuel_S fuel response :
  extract_word_scores_fuel (S fuel) response =
  match json_loads response with
  | Ok response_dict => Some (scores_of_json response_dict)
  | Raise e =>
      if subclass e JSONDecodeError then
        match first_matches patterns response with
        | Some tuples => Some ([], tuples_to_scores tuples)
        | None =>
            match re_search json_object_pattern 1 response with
            | Some json_str =>
                match json_loads json_str with
                | Ok json_data =>
                    match py_in "word_score_list" json_data with
                    | Ok true => extract_word_scores_fuel fuel json_str
                    | Ok false => Some ([], Ok (PList []))
                    | Raise e' =>
                        if subclass e' JSONDecodeError
                        then Some ([], Ok (PList []))
                        else Some ([], Raise e')
                    end
                | Raise e' =>
                    if subclass e' JSONDecodeError
                    then Some ([], Ok (PList []))
                    else Some ([], Raise e')
                end
            | None => Some ([], Ok (PList []))
            end
        end
      else Some ([], Raise e)
  end.
Proof. reflexivity. Qed.

Lemma extract_word_scores_fuel_parsed fuel s v :
  json_loads s = Ok v ->
  extract_word_scores_fuel (S fuel) s = Some (scores_of_json v).
Proof. rewrite extract_word_scores_fuel_S. by intros ->. Qed.

Lemma extract_word_scores_fuel_total fuel response :
  exists r, extract_word_scores_fuel (S (S fuel)) response = Some r.
Proof.
  rewrite extract_word_scores_fuel_S.
  destruct (json_loads response) as [v|e]; [eauto|].
  destruct (subclass e JSONDecodeError); [|eauto].
  destruct (first_matches patterns response); [eauto|].
  destruct (re_search json_object_pattern 1 response) as [json_str|]; [|eauto].
  destruct (json_loads json_str) as [json_data|e'] eqn:E;
    [|destruct (subclass _ _); eauto].
  destruct (py_in _ json_data) as [[]|e'']; [| |destruct (subclass _ _)]; eauto.
  rewrite (extract_word_scores_fuel_parsed _ _ _ E). eauto.
Qed.

Lemma extract_word_scores_fuel_enough fuel response :
  extract_word_scores_fuel (S (S fuel)) response
  = extract_word_scores_fuel 2 response.
Proof.
  rewrite !(extract_word_scores_fuel_S _ response).
  destruct (json_loads response) as [v|e]; [done|].
  destruct (subclass e JSONDecodeError); [|done].
  destruct (first_matches patterns response); [done|].
  destruct (re_search json_object_pattern 1 response) as [json_str|]; [|done].
  destruct (json_loads json_str) as [json_data|e'] eqn:E; [|done].
  destruct (py_in _ json_data) as [[]|]; [|done..].
  by rewrite !(extract_word_scores_fuel_parsed _ _ _ E).
Qed.

(** ** Claims about [extract_word_scores] *)

(** C10. [extract_word_scores] terminates on every input: two levels
    of calls always produce the outcome, whatever further depth is
    allowed.  The reason is the one the source relies on: the call on
    the embedded object is made only after [json.loads] has accepted
    that text, and a call on a text that [json.loads] accepts returns
    from the [try] branch without calling again. *)
Theorem extract_word_scores_terminates (response : string) :
  (exists r, forall fuel, extract_word_scores_fuel (2 + fuel) response = Some r)
  /\ (forall json_str v fuel,
        json_loads json_str = Ok v ->
        extract_word_scores_fuel (1 + fuel) json_str = Some (scores_of_json v)).
Proof.
  split.
  - destruct (extract_word_scores_fuel_total 0 response) as [r Hr].
    exists r. intros fuel.
    change (2 + fuel)%nat with (S (S fuel)).
    by rewrite extract_word_scores_fuel_enough.
  - intros json_str v fuel H. by apply extract_word_scores_fuel_parsed.
Qed.

Lemma extract_word_scores_terminates_witness :
  json_loads (q "{`word_score_list`: [[`a`, 1]]}")
  = Ok (PDict [("word_score_list", PList [PList [PStr "a"; PInt 1]])]%string)
  /\ extract_word_scores_fuel 1 (q "{`word_score_list`: [[`a`, 1]]}")
     = Some (scores_of_json
               (PDict [("word_score_list", PList [PList [PStr "a"; PInt 1]])]%string)).
Proof.
  split; [vm_compute; reflexivity|].
  apply (proj2 (extract_word_scores_terminates EmptyString)
               (q "{`word_score_list`: [[`a`, 1]]}") _ 0%nat).
  vm_compute; reflexivity.
Defined.

(** The second level of calls is needed: here the call on the whole
    text fails to decode, no pattern matches, and the embedded object
    is parsed by a second call. *)
Example extract_word_scores_second_call :
  extract_word_scores_fuel 1 (q "Scores: {`word_score_list`: [[`a`, `+1`]]} done") = None
  /\ extract_word_scores (q "Scores: {`word_score_list`: [[`a`, `+1`]]} done")
     = Some ([], Ok (PList [PTuple [PStr "a"; PInt 1]])).
Proof. split; vm_compute; reflexivity. Qed.











Example text_score_examples :
  text_score (PStr "score: -1 (negative)") = Ok (PInt (-1))
  /\ text_score (PStr " 1 ") = Ok (PInt 1)
  /\ text_score (PStr "negative") = Ok (PInt 0).
Proof. repeat split; vm_compute; reflexivity. Qed.

(** C6.  The per-item scan that converts a text score is reached only
    when the dispatch of lines 137-147 returns nothing.  A list whose first item is a pair, or a mapping
    with the keys [word] and [score], is converted at lines 143-147
    with a bare [int]: there the text score of the claim raises
    [ValueError], which leaves [extract_word_scores].  The same text
    is converted to -1 when the first item has other key names. *)
Theorem text_score_not_reached :
  extract_word_scores (q "{`word_score_list`: [[`bad`, `score: -1 (negative)`]]}")
  = Some ([], Raise ValueError)
  /\ extract_word_scores
       (q "{`word_score_list`: [{`word`: `bad`, `score`: `score: -1 (negative)`}]}")
     = Some ([], Raise ValueError)
  /\ extract_word_scores
       (q "{`word_score_list`: [{`token`: `bad`, `value`: `score: -1 (negative)`}]}")
     = Some (["Warning: Using fallback extraction for format: <class 'list'>"%string],
             Ok (PList [PTuple [PStr "bad"; PInt (-1)]])).
Proof. repeat split; vm_compute; reflexivity. Qed.

(** ** Claims about [extract_textual_feedback] *)






(** ** Which exceptions leave the parser, and what it returns *)















(** ** Plain prose matches no pattern *)








(** ** Claim about what leaves the parser *)




(** ** Steps of the run *)

Lemma bindW_ok {A B} (m : W A) (k : A -> W B) o a :
  m = (o, Ok a) -> bindW m k = (o ++ fst (k a), snd (k a)).
Proof. intros ->. simpl. by destruct (k a). Qed.

Lemma bindW_raise {A B} (m : W A) (k : A -> W B) o e :
  m = (o, Raise e) -> bindW m k = (o, Raise e).
Proof. by intros ->. Qed.

Lemma quiet_ret {A} (a : A) : quiet (ret a).
Proof. constructor. Qed.

Lemma quiet_lift {A} (r : res A) : quiet (lift r).
Proof. constructor. Qed.

Lemma quiet_emit e : is_file_event e = false -> quiet (emit e).
Proof. intros H. by repeat constructor. Qed.

Lemma quiet_bind {A B} (m : W A) (k : A -> W B) :
  quiet m -> (forall a, quiet (k a)) -> quiet (bindW m k).
Proof.
  unfold quiet. destruct m as [o [a|e]]; simpl; intros Hm Hk; [|done].
  specialize (Hk a). destruct (k a) as [o' r]. simpl in *.
  apply Forall_app. auto.
Qed.

Lemma quiet_try {A} (body : W A) handler :
  quiet body -> (forall e, quiet (handler e)) -> quiet (try_exceptW body handler).
Proof.
  unfold quiet. destruct body as [o [a|e]]; simpl; intros Hm Hk; [done|].
  specialize (Hk e). destruct (handler e) as [o' r]. simpl in *.
  apply Forall_app. auto.
Qed.

Lemma quiet_files {A} (m : W A) : quiet m -> files_written (fst m) = [].
Proof.
  unfold quiet. induction 1 as [|e evs He _ IH]; [done|].
  destruct e; simpl in *; done.
Qed.

Lemma quiet_opened {A} (m : W A) : quiet m -> opened (fst m) = [].
Proof.
  unfold quiet. induction 1 as [|e evs He _ IH]; [done|].
  destruct e; simpl in *; done.
Qed.

Lemma files_written_app o o' :
  files_written (o ++ o') = files_written o ++ files_written o'.
Proof.
  induction o as [|e o IH]; [done|]. destruct e; simpl; by rewrite ?IH.
Qed.

Lemma opened_app o o' : opened (o ++ o') = opened o ++ opened o'.
Proof.
  induction o as [|e o IH]; [done|]. destruct e; simpl; by rewrite ?IH.
Qed.

Ltac quiet_step :=
  first [ apply quiet_ret | apply quiet_lift | by apply quiet_emit
        | apply quiet_bind; [|intros ?] | apply quiet_try; [|intros ?]
        | match goal with
          | |- quiet (match ?v with _ => _ end) => destruct v
          end ].

Lemma quiet_load_data a w : quiet (load_data a w).
Proof. unfold load_data. repeat quiet_step. Qed.

Lemma quiet_sample_data a w v : quiet (sample_data a w v).
Proof. unfold sample_data. repeat quiet_step. Qed.


Lemma quiet_run_batch a w sampled results i : quiet (run_batch a w sampled results i).
Proof. unfold run_batch. repeat quiet_step. Qed.

Lemma quiet_batch_loop a w sampled starts :
  forall results, quiet (batch_loop a w sampled starts results).
Proof.
  induction starts as [|i starts IH]; simpl; intros results.
  - apply quiet_ret.
  - apply quiet_bind; [apply quiet_run_batch|auto].
Qed.

Lemma quiet_run_batches a w sampled : quiet (run_batches a w sampled).
Proof. unfold run_batches. repeat quiet_step. apply quiet_batch_loop. Qed.

(** ** Claim about the write stage *)

Lemma save_results_cases a w results :
  save_results a w results =
  let out := output_path a in
  let doc := PList results in
  (match write_json w 0 out doc with
   | Ok _ => [EvOpen out; EvFile out doc; EvSaved out]
   | Raise e =>
       match write_json w 1 backup_path doc with
       | Ok _ => [EvOpen out; EvSaveError e; EvOpen backup_path;
                  EvFile backup_path doc; EvBackupSaved backup_path]
       | Raise _ => [EvOpen out; EvSaveError e; EvOpen backup_path; EvBackupFailed]
       end
   end, Ok tt).
Proof.
  unfold save_results, write_file. simpl.
  destruct (write_json w 0 _ _) as [[]|e]; simpl; [done|].
  destruct (write_json w 1 _ _) as [[]|e']; done.
Qed.



(** ** [random.sample] selects without replacement *)

Lemma sample_pool_spec {A} (rnd : nat -> nat) (n : nat) :
  forall k i (pool : list A),
    (i + k <= n)%nat -> length pool = n ->
    length (sample_pool rnd n k i pool) = k
    /\ exists rest, take (n - i) pool ≡ₚ sample_pool rnd n k i pool ++ rest.
Proof.
  induction k as [|k IH]; intros i pool Hik Hlen; simpl.
  - split; [done|]. by exists (take (n - i) pool).
  - set (m := (n - i - 1)%nat). set (j := (rnd i mod (n - i))%nat).
    assert (Hj : (j < n - i)%nat) by (apply Nat.mod_upper_bound; lia).
    destruct (lookup_lt_is_Some_2 pool j) as [x Hx]; [lia|].
    destruct (lookup_lt_is_Some_2 pool m) as [y Hy]; [unfold m; lia|].
    rewrite Hx, Hy.
    destruct (IH (S i) (<[j:=y]> pool)) as [IHlen [rest IHp]];
      [lia|by rewrite length_insert|].
    split; [simpl; by rewrite IHlen|].
    exists rest. simpl. rewrite <- IHp.
    replace (n - i)%nat with (S m) by (unfold m; lia).
    replace (n - S i)%nat with m by (unfold m; lia).
    rewrite (take_S_r _ _ _ Hy).
    destruct (decide (j = m)) as [->|Hne].
    + rewrite take_insert_ge by lia. assert (x = y) as -> by congruence.
      by rewrite Permutation_app_comm.
    + rewrite take_insert_lt by (unfold m in *; lia).
      assert (Hxl : take m pool !! j = Some x).
      { rewrite lookup_take_lt; [done|unfold m in *; lia]. }
      rewrite insert_take_drop by (apply lookup_lt_Some in Hxl; done).
      rewrite <- (take_drop_middle _ _ _ Hxl) at 1.
      solve_Permutation.
Qed.

Lemma random_sample_spec {A} (rnd : nat -> nat) (population : list A) k :
  0 <= k <= Z.of_nat (length population) ->
  exists l rest,
    random_sample rnd population k = Ok l
    /\ length l = Z.to_nat k
    /\ population ≡ₚ l ++ rest.
Proof.
  intros Hk. unfold random_sample.
  replace ((k <? 0) || (Z.of_nat (length population) <? k)) with false by lia.
  destruct (sample_pool_spec rnd (length population) (Z.to_nat k) 0 population)
    as [Hlen [rest Hp]]; [lia|done|].
  eexists _, rest. split; [done|]. split; [done|].
  by rewrite Nat.sub_0_r, firstn_all in Hp.
Qed.


(** ** The keys of a loaded mapping are distinct *)

Lemma dict_set_keys d k v :
  dict_keys (dict_set d k v)
  = if existsb (String.eqb k) (dict_keys d) then dict_keys d
    else dict_keys d ++ [k].
Proof.
  induction d as [|[k' v'] d IH]; simpl; [done|].
  rewrite (String.eqb_sym k k').
  destruct (String.eqb k' k); simpl; [done|]. rewrite IH.
  by destruct (existsb _ _).
Qed.

Lemma dict_set_nodup d k v :
  NoDup (dict_keys d) -> NoDup (dict_keys (dict_set d k v)).
Proof.
  intros H. rewrite dict_set_keys.
  destruct (existsb (String.eqb k) (dict_keys d)) eqn:E; [done|].
  apply NoDup_app.
  split; [done|]. split; [|apply NoDup_singleton].
  intros x Hx ->%list_elem_of_singleton.
  assert (existsb (String.eqb k) (dict_keys d) = true); [|congruence].
  apply existsb_exists. exists k. split; [by apply list_elem_of_In|].
  apply String.eqb_refl.
Qed.

Lemma dict_of_pairs_nodup ps : NoDup (dict_keys (dict_of_pairs ps)).
Proof.
  unfold dict_of_pairs.
  assert (H : forall d, NoDup (dict_keys d) ->
            NoDup (dict_keys (fold_left
              (fun d kv => dict_set d (fst kv) (snd kv)) ps d))).
  { induction ps as [|[k v] ps IH]; simpl; intros d Hd; [done|].
    by apply IH, dict_set_nodup. }
  apply H, NoDup_nil. done.
Qed.

Lemma dict_get_in_keys d k :
  In k (dict_keys d) -> exists v, dict_get d k = Some v.
Proof.
  induction d as [|[k' v] d IH]; simpl; [done|].
  destruct (String.eqb_spec k' k); [eauto|]. intros [|]; [done|auto].
Qed.

Lemma dict_values_by_key d :
  NoDup (dict_keys d) ->
  map (field (PDict d)) (dict_keys d) = map snd d.
Proof.
  induction d as [|[k v] d IH]; simpl; [done|].
  intros [Hk Hd]%NoDup_cons.
  rewrite String.eqb_refl. f_equal. rewrite <- IH by done.
  apply map_ext_in. intros k' Hk'%list_elem_of_In. simpl.
  destruct (String.eqb_spec k k') as [->|]; [done|done].
Qed.

Lemma match_number_value s v r :
  match_number s = Some (v, r) -> (exists n, v = PInt n) \/ (exists f, v = PFloat f).
Proof.
  unfold match_number. intros H.
  repeat case_match; simplify_eq; eauto.
Qed.

Lemma scan_atom_value s v r : scan_atom s = POk v r -> forall d, v <> PDict d.
Proof.
  unfold scan_atom. intros H d.
  repeat case_match; simplify_eq; try done.
  match goal with H : match_number _ = Some _ |- _ =>
    apply match_number_value in H as [[? ->]|[? ->]] end; done.
Qed.

Lemma object_loop_value fuel : forall s acc v r,
  object_loop fuel s acc = POk v r -> exists ps, v = PDict (dict_of_pairs ps).
Proof.
  induction fuel as [|fuel IH]; simpl; intros s acc v r H; [done|].
  repeat case_match; simplify_eq; eauto.
Qed.

Lemma array_loop_value fuel : forall s acc v r,
  array_loop fuel s acc = POk v r -> exists l, v = PList l.
Proof.
  induction fuel as [|fuel IH]; simpl; intros s acc v r H; [done|].
  repeat case_match; simplify_eq; eauto.
Qed.

Lemma scan_once_dict fuel s d r :
  scan_once fuel s = POk (PDict d) r -> NoDup (dict_keys d).
Proof.
  destruct fuel as [|fuel]; simpl; [done|]. intros H.
  repeat case_match; simplify_eq;
    first
      [ by apply NoDup_nil
      | match goal with
        | H : object_loop _ _ _ = _ |- _ =>
            apply object_loop_value in H as [? [= ->]];
            apply dict_of_pairs_nodup
        | H : array_loop _ _ _ = _ |- _ =>
            by apply array_loop_value in H as [? [=]]
        | H : scan_atom _ = _ |- _ =>
            by apply scan_atom_value with (d := d) in H
        end ].
Qed.

Lemma json_loads_keys_distinct s d :
  json_loads s = Ok (PDict d) -> NoDup (dict_keys d).
Proof.
  unfold json_loads. intros H. repeat case_match; simplify_eq.
  eauto using scan_once_dict.
Qed.

(** ** The fuel of [json_loads] is enough *)

Lemma skip_ws_length s : (length (skip_ws s) <= length s)%nat.
Proof.
  induction s as [|c s IH]; simpl; [done|]. destruct (is_json_ws c); simpl; lia.
Qed.

Lemma strip_prefix_length p : forall s r,
  strip_prefix p s = Some r -> (length r + length p = length s)%nat.
Proof.
  induction p as [|a p IH]; simpl; intros s r H; [by simplify_eq|].
  destruct s as [|c s]; [done|]. destruct (Ascii.eqb a c); [|done].
  apply IH in H. simpl. lia.
Qed.

Lemma span_digits_length s : forall d r,
  span_digits s = (d, r) -> (length d + length r = length s)%nat.
Proof.
  induction s as [|c s IH]; simpl; intros d r H; [by simplify_eq|].
  destruct (is_digit c); [|by simplify_eq].
  destruct (span_digits s) as [d' r']. simplify_eq. specialize (IH _ _ eq_refl).
  simpl. lia.
Qed.

Lemma span_digits_head c s d r :
  is_digit c = true -> span_digits (c :: s) = (d, r) ->
  (length d + length r = S (length s) /\ 1 <= length d)%nat.
Proof.
  simpl. intros ->. destruct (span_digits s) as [d' r'] eqn:E.
  intros [= <- <-]. apply span_digits_length in E. simpl. lia.
Qed.

Lemma match_number_length s v r :
  match_number s = Some (v, r) -> (length r < length s)%nat.
Proof.
  unfold match_number. intros H.
  repeat case_match; simplify_eq;
    repeat match goal with
    | Hd : is_digit ?c = true, H : span_digits (?c :: _) = _ |- _ =>
        apply (span_digits_head _ _ _ _ Hd) in H as [? ?]
    | H : span_digits _ = _ |- _ => apply span_digits_length in H
    | H : (_ =? _)%char = true |- _ => apply Ascii.eqb_eq in H; subst
    end; simpl in *; try lia;
    try match goal with
        | H : _ || _ = true |- _ => by cbv in H
        | H : (_ =? _)%char = true |- _ => by cbv in H
        end.
Qed.

Lemma scan_atom_length s v r : scan_atom s = POk v r -> (length r < length s)%nat.
Proof.
  unfold scan_atom. intros H.
  repeat case_match; simplify_eq;
    repeat match goal with
    | H : strip_prefix _ _ = Some _ |- _ => apply strip_prefix_length in H
    | H : match_number _ = Some _ |- _ => apply match_number_length in H
    end; simpl in *; lia.
Qed.

Lemma scanstring_length s : forall acc us r,
  scanstring s acc = POk us r -> (length r < length s)%nat.
Proof.
  induction s as [s IH] using (induction_ltof1 _ (@length ascii)).
  unfold ltof in IH. intros acc us r H.
  destruct s as [|c s]; simpl in H; [done|].
  repeat case_match; simplify_eq; simpl;
    try match goal with
    | H : scanstring _ _ = POk _ _ |- _ => apply IH in H; simpl in *; lia
    end; lia.
Qed.

Lemma scanstring_no_fuel s : forall acc, scanstring s acc <> PFuel.
Proof.
  induction s as [s IH] using (induction_ltof1 _ (@length ascii)).
  unfold ltof in IH. intros acc.
  destruct s as [|c s]; simpl; [done|].
  repeat case_match; simplify_eq; try done; apply IH; simpl; lia.
Qed.

Lemma parse_string_length s str r :
  parse_string s = POk str r -> (length r < length s)%nat.
Proof.
  unfold parse_string. destruct (scanstring s []) eqn:E; [|done..].
  intros [= <- <-]. eauto using scanstring_length.
Qed.

Lemma parse_string_no_fuel s : parse_string s <> PFuel.
Proof.
  unfold parse_string. destruct (scanstring s []) eqn:E; try done.
  by apply scanstring_no_fuel in E.
Qed.

Lemma scan_atom_no_fuel s : scan_atom s <> PFuel.
Proof. unfold scan_atom. repeat case_match; done. Qed.

(** Collecting what is known about lengths. *)
Ltac length_facts :=
  repeat match goal with
  | H : skip_ws ?l = _ |- _ =>
      pose proof (skip_ws_length l); rewrite H in *; clear H
  | H : parse_string _ = POk _ _ |- _ => apply parse_string_length in H
  | H : scan_atom _ = POk _ _ |- _ => apply scan_atom_length in H
  end;
  repeat match goal with
  | H : context [skip_ws ?l] |- _ =>
      lazymatch goal with
      | _ : (length (skip_ws l) <= length l)%nat |- _ => fail
      | _ => pose proof (skip_ws_length l)
      end
  | |- context [skip_ws ?l] =>
      lazymatch goal with
      | _ : (length (skip_ws l) <= length l)%nat |- _ => fail
      | _ => pose proof (skip_ws_length l)
      end
  end; simpl in *.

(** Every successful scan consumes at least one character. *)
Lemma scan_length fuel :
  (forall s v r, scan_once fuel s = POk v r -> (length r < length s)%nat)
  /\ (forall s acc v r, object_loop fuel s acc = POk v r -> (length r < length s)%nat)
  /\ (forall s acc v r, array_loop fuel s acc = POk v r -> (length r < length s)%nat).
Proof.
  induction fuel as [|fuel (IH1 & IH2 & IH3)]; [by repeat split|].
  repeat split; simpl; intros; repeat case_match; simplify_eq;
    repeat match goal with
    | H : scan_once fuel _ = POk _ _ |- _ => apply IH1 in H
    | H : object_loop fuel _ _ = POk _ _ |- _ => apply IH2 in H
    | H : array_loop fuel _ _ = POk _ _ |- _ => apply IH3 in H
    end; length_facts; try lia.
Qed.

Lemma scan_fuel fuel :
  (forall s, (2 * length s + 1 <= fuel)%nat -> scan_once fuel s <> PFuel)
  /\ (forall s acc, (2 * length s + 2 <= fuel)%nat -> object_loop fuel s acc <> PFuel)
  /\ (forall s acc, (2 * length s + 2 <= fuel)%nat -> array_loop fuel s acc <> PFuel).
Proof.
  induction fuel as [|fuel (IH1 & IH2 & IH3)]; [repeat split; intros; lia|].
  destruct (scan_length fuel) as (L1 & L2 & L3).
  repeat split; simpl; intros; repeat case_match; simplify_eq; try done.
  all: repeat match goal with
    | H : parse_string _ = PFuel |- _ => by apply parse_string_no_fuel in H
    | H : scan_atom _ = PFuel |- _ => by apply scan_atom_no_fuel in H
    | H : scan_once _ _ = POk _ _ |- _ => apply L1 in H
    end.
  all: length_facts.
  all: first
    [ apply scan_atom_no_fuel
    | apply IH2; lia
    | apply IH3; simpl; lia
    | intros _;
      match goal with
      | H : scan_once _ _ = PFuel |- _ => revert H; apply IH1; simpl; lia
      end ].
Qed.

(** [json_loads] decides every text: the bound on the depth of the
    scanner is never reached. *)
Lemma json_loads_fuel s :
  scan_once (2 * length (list_ascii_of_string s) + 1)
            (skip_ws (list_ascii_of_string s)) <> PFuel.
Proof.
  apply scan_fuel. pose proof (skip_ws_length (list_ascii_of_string s)). lia.
Qed.

(** ** Claim about the sampling stage *)

Lemma mapM_ok_map {A B} (f : A -> res B) (g : A -> B) l :
  (forall x, In x l -> f x = Ok (g x)) -> mapM f l = Ok (map g l).
Proof.
  induction l as [|x l IH]; simpl; intros H; [done|].
  rewrite H by auto. simpl. rewrite IH by auto. done.
Qed.

Lemma batches_concat {A} (l : list A) bs cnt : forall t,
  concat (map (fun i => firstn bs (skipn i l))
              (map (fun c => (c * bs)%nat) (seq t cnt)))
  = firstn (cnt * bs) (skipn (t * bs) l).
Proof.
  induction cnt as [|cnt IH]; simpl; intros t; [done|].
  rewrite IH. replace (S t * bs)%nat with (t * bs + bs)%nat by lia.
  rewrite <- drop_drop. apply take_take_drop.
Qed.

Lemma py_range_batches {A} (l : list A) (bs : Z) :
  0 < bs ->
  exists starts,
    py_range (length l) bs = Ok starts
    /\ starts = map (fun c => (c * Z.to_nat bs)%nat)
                    (seq 0 ((length l + Z.to_nat bs - 1) / Z.to_nat bs))
    /\ concat (map (fun i => firstn (Z.to_nat bs) (skipn i l)) starts) = l.
Proof.
  intros Hbs. unfold py_range.
  replace (bs =? 0) with false by lia. replace (bs <? 0) with false by lia.
  eexists. split; [done|]. split; [done|].
  rewrite batches_concat. simpl. apply take_ge.
  set (n := Z.to_nat bs). assert (0 < n)%nat by lia.
  pose proof (Nat.div_mod_eq (length l + n - 1) n).
  pose proof (Nat.mod_upper_bound (length l + n - 1) n). nia.
Qed.

Lemma sample_data_mapping (a : args) (w : env) d :
  0 <= max_samples a -> NoDup (dict_keys d) ->
  exists keys rest,
    sample_keys a w d = Ok keys
    /\ length keys = Z.to_nat (Z.min (max_samples a) (Z.of_nat (length d)))
    /\ dict_keys d ≡ₚ keys ++ rest
    /\ sample_data a w (PDict d)
       = ([EvSampled (length keys)], Ok (map (field (PDict d)) keys)).
Proof.
  intros Hmax Hd.
  destruct (random_sample_spec (draws w) (dict_keys d)
              (Z.min (max_samples a) (Z.of_nat (length d))))
    as (keys & rest & E & Hlen & Hp).
  { unfold dict_keys. rewrite length_map. lia. }
  exists keys, rest. unfold sample_keys. do 3 (split; [done|]).
  unfold sample_data, sample_keys. rewrite E. simpl.
  rewrite (mapM_ok_map _ (field (PDict d))); [by rewrite length_map|].
  intros k Hk. destruct (dict_get_in_keys d k) as [v Hv].
  { apply list_elem_of_In. rewrite Hp. apply elem_of_app. left.
    by apply list_elem_of_In. }
  simpl. by rewrite Hv.
Qed.

Lemma sample_data_sequence (a : args) (w : env) l :
  0 <= max_samples a ->
  exists indices rest,
    sample_indices a w (length l) = Ok indices
    /\ length indices = Z.to_nat (Z.min (max_samples a) (Z.of_nat (length l)))
    /\ seq 0 (length l) ≡ₚ indices ++ rest
    /\ sample_data a w (PList l)
       = ([EvSampled (length indices)], Ok (map (fun i => nth i l PNone) indices)).
Proof.
  intros Hmax.
  destruct (random_sample_spec (draws w) (seq 0 (length l))
              (Z.min (max_samples a) (Z.of_nat (length l))))
    as (indices & rest & E & Hlen & Hp).
  { rewrite length_seq. lia. }
  exists indices, rest. unfold sample_indices. do 3 (split; [done|]).
  unfold sample_data, sample_indices. simpl. rewrite E. simpl.
  rewrite (mapM_ok_map _ (fun i => nth i l PNone)); [by rewrite length_map|].
  intros i Hi. simpl.
  assert (Hs : i ∈ seq 0 (length l)).
  { rewrite Hp. apply elem_of_app. left. by apply list_elem_of_In. }
  apply list_elem_of_In, in_seq in Hs.
  rewrite (nth_error_nth' l PNone); [done|lia].
Qed.

(** C8, as the source has it.  For a loaded dataset and a maximum
    sample count that is not negative, the driver selects exactly
    min(maximum count, dataset size) samples, at distinct keys of a
    mapping or at distinct indices of a sequence; for a positive batch
    size, the selected samples are then cut into batches of that size
    that together are exactly the selection. *)
Theorem sampling_without_replacement (a : args) (w : env) (text : string) :
  0 <= max_samples a ->
  (forall d, json_loads text = Ok (PDict d) ->
     exists keys,
       sample_keys a w d = Ok keys
       /\ Z.of_nat (length keys) = Z.min (max_samples a) (Z.of_nat (length d))
       /\ NoDup keys
       /\ (forall k, In k keys -> In k (dict_keys d))
       /\ sample_data a w (PDict d)
          = ([EvSampled (length keys)], Ok (map (field (PDict d)) keys)))
  /\ (forall l, json_loads text = Ok (PList l) ->
        exists indices,
          sample_indices a w (length l) = Ok indices
          /\ Z.of_nat (length indices) = Z.min (max_samples a) (Z.of_nat (length l))
          /\ NoDup indices
          /\ (forall i, In i indices -> (i < length l)%nat)
          /\ sample_data a w (PList l)
             = ([EvSampled (length indices)],
                Ok (map (fun i => nth i l PNone) indices)))
  /\ (forall sampled_data : list pyval,
        0 < batch_size a ->
        exists starts,
          py_range (length sampled_data) (batch_size a) = Ok starts
          /\ concat (map (fun i => firstn (Z.to_nat (batch_size a))
                                          (skipn i sampled_data)) starts)
             = sampled_data).
Proof.
  intros Hmax. split; [|split].
  - intros d Hd. apply json_loads_keys_distinct in Hd.
    destruct (sample_data_mapping a w d Hmax Hd) as (keys & rest & E & Hlen & Hp & Hs).
    exists keys. split; [done|]. split; [lia|].
    split; [rewrite Hp in Hd; by apply NoDup_app in Hd as [? _]|].
    split; [|done].
    intros k Hk. apply list_elem_of_In. rewrite Hp.
    apply elem_of_app. left. by apply list_elem_of_In.
  - intros l _.
    destruct (sample_data_sequence a w l Hmax) as (indices & rest & E & Hlen & Hp & Hs).
    exists indices. split; [done|]. split; [lia|].
    split.
    { pose proof (NoDup_seq 0 (length l)) as Hnd. rewrite Hp in Hnd.
      by apply NoDup_app in Hnd as [? _]. }
    split; [|done].
    intros i Hi. assert (Hin : i ∈ seq 0 (length l)).
    { rewrite Hp. apply elem_of_app. left. by apply list_elem_of_In. }
    apply list_elem_of_In, in_seq in Hin. lia.
  - intros sampled_data Hbs.
    destruct (py_range_batches sampled_data (batch_size a) Hbs)
      as (starts & E & _ & Hc). eauto.
Qed.

(** ** Claim about the records written *)









Lemma records_from_length stub l : forall i, length (records_from stub i l) = length l.
Proof. induction l as [|x l IH]; simpl; intros i; [done|]. by rewrite IH. Qed.


Section Batches.
Context (a : args) (w : env) (stub : pyval -> string) (sampled : list pyval).
Hypothesis Hstub : forall batch,
  process_batch w batch (max_new_tokens a) (temperature a) = Ok (map stub batch).
Hypothesis Hsamples : Forall is_sample sampled.
Hypothesis Hbs : 0 < batch_size a.



End Batches.


Lemma map_nth_seq (l : list pyval) :
  map (fun i => nth i l PNone) (seq 0 (length l)) = l.
Proof.
  apply nth_ext with (d := PNone) (d' := PNone).
  - by rewrite length_map, length_seq.
  - intros n Hn. rewrite length_map, length_seq in Hn.
    rewrite (nth_indep _ _ (nth 0 l PNone)) by (by rewrite length_map, length_seq).
    rewrite (map_nth (fun i => nth i l PNone) (seq 0 (length l)) 0%nat n).
    by rewrite seq_nth.
Qed.


(** ** Runs of the example *)



Lemma sampling_without_replacement_witness :
  exists indices,
    sample_indices (example_args 2 2) (example_env (fun _ => true))
                   (length example_samples) = Ok indices
    /\ Z.of_nat (length indices) = Z.min 2 (Z.of_nat (length example_samples))
    /\ NoDup indices
    /\ (forall i, In i indices -> (i < length example_samples)%nat)
    /\ sample_data (example_args 2 2) (example_env (fun _ => true))
                   (PList example_samples)
       = ([EvSampled (length indices)],
          Ok (map (fun i => nth i example_samples PNone) indices)).
Proof.
  refine (proj1 (proj2 (sampling_without_replacement (example_args 2 2)
                          (example_env (fun _ => true)) example_text _))
                example_samples _).
  - simpl; lia.
  - vm_compute; reflexivity.
Defined.


(** ** Edges of the run *)

(** The claim as it is written fails for a maximum sample count that
    is negative: [random.sample] raises, the error is logged, and
    [main] returns with no sample selected and no batch run. *)
Lemma sampling_negative_count_counterexample :
  json_loads example_text = Ok (PList example_samples)
  /\ sample_indices (example_args (-1) 2) (example_env (fun _ => true))
                    (length example_samples) = Raise ValueError
  /\ main (example_args (-1) 2) (example_env (fun _ => true))
     = ([EvLoading; EvDataType "<class 'list'>"; EvTotal 3; EvSampling;
         EvSampleError ValueError], Ok tt).
Proof. repeat split; vm_compute; reflexivity. Qed.

(** A batch size of zero makes [range] raise, outside any handler. *)
Example main_zero_batch_size :
  snd (main (example_args 500 0) (example_env (fun _ => true))) = Raise ValueError.
Proof. vm_compute; reflexivity. Qed.

(** An empty mapping is rejected in the loading stage, by [next]. *)
Example main_empty_mapping :
  main (example_args 500 2)
       {| load_and_prepare_model := fun _ => Ok tt;
          read_file := fun _ => Ok "{}"%string;
          process_batch := fun batch _ _ => Ok (map example_stub batch);
          write_json := fun _ _ _ => Ok tt;
          draws := fun i => i |}
  = ([EvLoading; EvDataType "<class 'dict'>"; EvTotal 0;
      EvLoadError StopIteration], Ok tt).
Proof. vm_compute; reflexivity. Qed.

(** * Further properties of the code *)

(** ** The shapes of [word_score_list] *)

(** Comparisons of given characters are evaluated. *)
Ltac eval_chars :=
  repeat match goal with
  | |- context [Ascii.eqb ?a ?b] =>
      let v := eval vm_compute in (Ascii.eqb a b) in
      change (Ascii.eqb a b) with v
  end; cbv iota.

Lemma scores_by_position_ok items pairs :
  Forall2 pair_item items pairs ->
  scores_by_position items
  = Ok (PList (map (fun p => PTuple [PStr (fst p); PInt (snd p)]) pairs)).
Proof.
  intros HF. unfold scores_by_position.
  assert (mapM (fun item => do w <- getitem_nat item 0;
                            do s <- getitem_nat item 1;
                            do n <- py_int s;
                            Ok (PTuple [PStr (py_str w); PInt n])) items
          = Ok (map (fun p => PTuple [PStr (fst p); PInt (snd p)]) pairs)) as ->; [|done].
  induction HF as [|item p items pairs (w & s & rest & -> & Hw & Hn) _ IH]; [done|].
  simpl. rewrite Hn. simpl. rewrite IH. simpl. by rewrite Hw.
Qed.

Lemma mapM_app_raise {A B} (f : A -> res B) l1 x l2 r e :
  mapM f l1 = Ok r -> f x = Raise e -> mapM f (l1 ++ x :: l2) = Raise e.
Proof.
  revert r. induction l1 as [|y l1 IH]; simpl; intros r H Hx.
  - by rewrite Hx.
  - destruct (f y); simpl in *; [|done].
    destruct (mapM f l1) eqn:E; simpl in *; [|done].
    by rewrite (IH _ eq_refl Hx).
Qed.



Lemma scores_by_position_short pre short post pairs :
  Forall2 pair_item pre pairs -> (length short < 2)%nat ->
  scores_by_position (pre ++ PList short :: post) = Raise IndexError.
Proof.
  intros HF Hlen. unfold scores_by_position.
  pose proof (scores_by_position_ok _ _ HF) as Hs. unfold scores_by_position in Hs.
  destruct (mapM _ pre) as [r|] eqn:E; [|done].
  rewrite (mapM_app_raise _ _ _ _ _ IndexError E); [done|].
  destruct short as [|x [|y short]]; simpl in *; [done|done|lia].
Qed.

(** X2 (lines 146-147).  When the response is a JSON object whose
    [word_score_list] is a list of sequences, and one of them has
    fewer than two elements while those before it are pairs as in X1,
    the parser raises [IndexError]: the short item is not skipped,
    because the scan of line 153, which would skip it, is not
    reached. *)
Theorem word_score_list_short_pair (response : string) d pre short post pairs :
  json_loads response = Ok (PDict d) ->
  dict_get d "word_score_list" = Some (PList (pre ++ PList short :: post)) ->
  Forall2 pair_item pre pairs ->
  (length short < 2)%nat ->
  extract_word_scores response = Some ([], Raise IndexError).
Proof.
  intros Hj Hd HF Hlen.
  pose proof (scores_by_position_short _ _ post _ HF Hlen) as Hs.
  unfold extract_word_scores.
  rewrite (extract_word_scores_fuel_parsed _ _ _ Hj).
  unfold scores_of_json. simpl. rewrite Hd.
  destruct HF as [|item p items pairs (w & s & rest & -> & Hw & Hn) HF].
  - cbn [app] in *. unfold direct_scores. by rewrite Hs.
  - cbn [app] in *. unfold direct_scores. by rewrite Hs.
Qed.

Lemma word_score_list_short_pair_witness :
  extract_word_scores (q "{`word_score_list`: [[`good`, 1], [`bad`], [`fine`, 0]]}")
  = Some ([], Raise IndexError).
Proof.
  eapply (word_score_list_short_pair _
            [("word_score_list",
              PList [PList [PStr "good"; PInt 1]; PList [PStr "bad"];
                     PList [PStr "fine"; PInt 0]])]%string
            [PList [PStr "good"; PInt 1]] [PStr "bad"] [PList [PStr "fine"; PInt 0]]
            [("good", 1)]%string).
  - by vm_compute.
  - reflexivity.
  - repeat constructor; unfold pair_item; simpl; eauto 10.
  - simpl. lia.
Defined.

(** X3 (lines 135 and 149-178).  When the response is a JSON object
    and [word_score_list] is missing, or is the empty list, or is
    neither a text nor a list, the parser prints the warning of line
    149 with the type of the value (that of a list when the key is
    missing) and returns the empty list. *)
Theorem word_score_list_not_a_list (response : string) d v :
  json_loads response = Ok (PDict d) ->
  match dict_get d "word_score_list" with
  | Some v' => v' = v
  | None => v = PList []
  end ->
  v = PList [] \/ ((forall s, v <> PStr s) /\ (forall l, v <> PList l)) ->
  extract_word_scores response
  = Some ([String.append "Warning: Using fallback extraction for format: "
                         (type_name v)], Ok (PList [])).
Proof.
  intros Hj Hd Hv. unfold extract_word_scores.
  rewrite (extract_word_scores_fuel_parsed _ _ _ Hj).
  unfold scores_of_json. simpl.
  assert (match dict_get d "word_score_list" with Some x => x | None => PList [] end = v)
    as ->.
  { destruct (dict_get d "word_score_list"); by subst. }
  destruct Hv as [-> |[Hs Hl]]; [done|].
  destruct v; try done.
  - by destruct (Hs s).
  - by destruct (Hl l).
Qed.

Lemma word_score_list_not_a_list_witness :
  extract_word_scores (q "{`textual_feedback`: `fine`}")
  = Some (["Warning: Using fallback extraction for format: <class 'list'>"%string],
          Ok (PList []))
  /\ extract_word_scores (q "{`word_score_list`: {`good`: 1}}")
     = Some (["Warning: Using fallback extraction for format: <class 'dict'>"%string],
             Ok (PList [])).
Proof.
  split.
  - apply (word_score_list_not_a_list _ [("textual_feedback", PStr "fine")]%string (PList [])).
    + by vm_compute.
    + reflexivity.
    + by left.
  - apply (word_score_list_not_a_list _
             [("word_score_list", PDict [("good", PInt 1)])]%string
             (PDict [("good", PInt 1)]%string)).
    + by vm_compute.
    + reflexivity.
    + right. by split.
Defined.











(** ** The embedded object *)









(** ** The words that the patterns capture *)










(** ** The feedback found in a text *)





(** ** The stages before the batches *)

(** X8 (lines 209-223).  An exception of the model loading leaves
    [main] before anything is printed.  Once the model is loaded, a
    failure of the loading stage ends the run with a normal return
    after the error line, with nothing sampled, generated or written:
    this is so when the data file cannot be read, when its text is no
    JSON, when the JSON value has no length (null, a boolean, a
    number), and when it is the empty mapping, whose first key line
    219 asks for. *)
Theorem load_failure_ends_run (a : args) (w : env) :
  (forall e, load_and_prepare_model w (model_path a) = Raise e ->
     main a w = ([], Raise e))
  /\ (load_and_prepare_model w (model_path a) = Ok tt ->
      (forall e, read_file w (data_path a) = Raise e ->
         main a w = ([EvLoading; EvLoadError e], Ok tt))
      /\ (forall text, read_file w (data_path a) = Ok text ->
            (forall e, json_loads text = Raise e ->
               main a w = ([EvLoading; EvLoadError JSONDecodeError], Ok tt))
            /\ (forall v, json_loads text = Ok v -> no_len v = true ->
                  main a w = ([EvLoading; EvDataType (type_name v);
                               EvLoadError TypeError], Ok tt))
            /\ (json_loads text = Ok (PDict []) ->
                  main a w = ([EvLoading; EvDataType "<class 'dict'>"; EvTotal 0;
                               EvLoadError StopIteration], Ok tt)))).
Proof.
  split; [|intros Hm; split; [|intros text Hr; repeat split]].
  - intros e He. unfold main. by rewrite He.
  - intros e He. unfold main, load_data. by rewrite Hm, He.
  - intros e He. rewrite (json_loads_error _ _ He) in He.
    unfold main, load_data. rewrite Hm, Hr. cbn [lift bindW emit app].
    by rewrite He.
  - intros v Hv Hn. unfold main, load_data. rewrite Hm, Hr.
    cbn [lift bindW emit app]. rewrite Hv. by destruct v.
  - intros Hv. unfold main, load_data. rewrite Hm, Hr.
    cbn [lift bindW emit app]. by rewrite Hv.
Qed.

Lemma load_failure_ends_run_witness :
  main (example_args 500 2) (stub_env "{}" example_stub)
  = ([EvLoading; EvDataType "<class 'dict'>"; EvTotal 0; EvLoadError StopIteration],
     Ok tt)
  /\ main (example_args 500 2) (stub_env "3.5" example_stub)
     = ([EvLoading; EvDataType "<class 'float'>"; EvLoadError TypeError], Ok tt)
  /\ main (example_args 500 2) (stub_env "[{'post': 1}]" example_stub)
     = ([EvLoading; EvLoadError JSONDecodeError], Ok tt).
Proof.
  pose proof (load_failure_ends_run (example_args 500 2)) as H.
  split; [|split].
  - destruct (H (stub_env "{}" example_stub)) as [_ H1].
    destruct (H1 eq_refl) as [_ H2].
    destruct (H2 "{}"%string eq_refl) as (_ & _ & H3). apply H3. by vm_compute.
  - destruct (H (stub_env "3.5" example_stub)) as [_ H1].
    destruct (H1 eq_refl) as [_ H2].
    destruct (H2 "3.5"%string eq_refl) as (_ & H3 & _).
    apply (H3 (PFloat (S754_finite false 7881299347898368 (-51)))); by vm_compute.
  - destruct (H (stub_env "[{'post': 1}]" example_stub)) as [_ H1].
    destruct (H1 eq_refl) as [_ H2].
    destruct (H2 "[{'post': 1}]"%string eq_refl) as (H3 & _).
    apply (H3 JSONDecodeError). by vm_compute.
Defined.






Lemma Permutation_full {A} (l1 l2 rest : list A) :
  l1 ≡ₚ l2 ++ rest -> length l2 = length l1 -> l2 ≡ₚ l1.
Proof.
  intros Hp Hl. apply Permutation_length in Hp as Hlen.
  rewrite length_app in Hlen. destruct rest; [|simpl in Hlen; lia].
  by rewrite app_nil_r in Hp.
Qed.

Lemma sample_data_all (a : args) (w : env) l :
  Z.of_nat (length l) <= max_samples a ->
  exists sampled,
    sample_data a w (PList l) = ([EvSampled (length l)], Ok sampled)
    /\ sampled ≡ₚ l.
Proof.
  intros Hk.
  destruct (sample_data_sequence a w l) as (indices & rest & _ & Hlen & Hp & Hs);
    [lia|].
  rewrite Z.min_r, Nat2Z.id in Hlen by lia.
  assert (Hi : indices ≡ₚ seq 0 (length l)).
  { eapply Permutation_full; [done|]. by rewrite length_seq. }
  exists (map (fun i => nth i l PNone) indices). rewrite Hs, Hlen.
  split; [done|]. rewrite Hi. by rewrite map_nth_seq.
Qed.

(** X10 (lines 227-232).  When the maximum sample count is at least
    the size of the dataset, every item of the dataset is selected
    exactly once: the selection is a permutation of the items of the
    sequence, or of the values of the mapping. *)
Theorem sampling_takes_all (a : args) (w : env) (text : string) :
  (forall l, json_loads text = Ok (PList l) ->
     Z.of_nat (length l) <= max_samples a ->
     exists sampled,
       sample_data a w (PList l) = ([EvSampled (length l)], Ok sampled)
       /\ sampled ≡ₚ l)
  /\ (forall d, json_loads text = Ok (PDict d) ->
        Z.of_nat (length d) <= max_samples a ->
        exists sampled,
          sample_data a w (PDict d) = ([EvSampled (length d)], Ok sampled)
          /\ sampled ≡ₚ map snd d).
Proof.
  split.
  - intros l _ Hk. by apply sample_data_all.
  - intros d Hd Hk. apply json_loads_keys_distinct in Hd.
    destruct (sample_data_mapping a w d) as (keys & rest & _ & Hlen & Hp & Hs);
      [lia|done|].
    rewrite Z.min_r, Nat2Z.id in Hlen by lia.
    assert (Hi : keys ≡ₚ dict_keys d).
    { eapply Permutation_full; [done|]. unfold dict_keys. by rewrite length_map. }
    exists (map (field (PDict d)) keys). rewrite Hs, Hlen.
    split; [done|]. rewrite Hi. by rewrite dict_values_by_key.
Qed.

Lemma sampling_takes_all_witness :
  exists sampled,
    sample_data (example_args 500 2) (stub_env example_text example_stub)
                (PList example_samples)
    = ([EvSampled 3], Ok sampled)
    /\ sampled ≡ₚ example_samples.
Proof.
  apply (proj1 (sampling_takes_all (example_args 500 2)
                  (stub_env example_text example_stub) example_text)).
  - by vm_compute.
  - simpl. lia.
Defined.

(** ** The batches *)

Lemma main_batches (a : args) (w : env) v o s sampled :
  load_and_prepare_model w (model_path a) = Ok tt ->
  load_data a w = (o, Ok v) ->
  sample_data a w v = (s, Ok sampled) ->
  main a w
  = (EvLoading :: o ++ EvSampling :: s
       ++ fst (bindW (run_batches a w sampled) (save_results a w)),
     snd (bindW (run_batches a w sampled) (save_results a w))).
Proof.
  intros Hm Hl Hs. unfold main. rewrite Hm, Hl. cbn [lift bindW emit ret try_exceptW app].
  rewrite Hs. cbn [lift bindW emit ret try_exceptW app].
  destruct (bindW (run_batches a w sampled) _) as [o' r] eqn:E.
  cbn [fst snd].
  repeat first [rewrite app_nil_r | rewrite <- app_assoc | progress cbn [app]].
  done.
Qed.

Lemma load_data_list (a : args) (w : env) text l :
  read_file w (data_path a) = Ok text ->
  json_loads text = Ok (PList l) ->
  load_data a w = ([EvDataType "<class 'list'>"; EvTotal (length l)], Ok (PList l)).
Proof. intros Hr Hj. unfold load_data. rewrite Hr. cbn [lift bindW]. by rewrite Hj. Qed.

(** X11 (lines 241 and 272-275).  Let the model load and the data
    file hold a JSON sequence, and let the maximum sample count be
    non-negative.  With a batch size of zero, [range] raises a
    [ValueError] that leaves [main] after the sampling, and no file is
    opened.  With a negative batch size no batch is run: nothing is
    generated, and the results saved are the empty list. *)
Theorem batch_size_not_positive (a : args) (w : env) (text : string) l :
  load_and_prepare_model w (model_path a) = Ok tt ->
  read_file w (data_path a) = Ok text ->
  json_loads text = Ok (PList l) ->
  0 <= max_samples a ->
  let n := Z.to_nat (Z.min (max_samples a) (Z.of_nat (length l))) in
  let pre := [EvLoading; EvDataType "<class 'list'>"; EvTotal (length l);
              EvSampling; EvSampled n] in
  (batch_size a = 0 -> main a w = (pre, Raise ValueError))
  /\ (batch_size a < 0 ->
      main a w = (pre ++ fst (save_results a w []), Ok tt)).
Proof.
  intros Hm Hr Hj Hk n pre.
  destruct (sample_data_sequence a w l Hk) as (indices & rest & _ & Hlen & _ & Hs).
  rewrite Hlen in Hs. fold n in Hs.
  pose proof (main_batches a w _ _ _ _ Hm (load_data_list _ _ _ _ Hr Hj) Hs) as H.
  split; intros Hb; rewrite H; unfold run_batches, py_range.
  - rewrite Hb. done.
  - destruct (Z.eqb_spec (batch_size a) 0) as [|_]; [lia|].
    destruct (Z.ltb_spec (batch_size a) 0) as [_|]; [|lia].
    cbn [lift bindW batch_loop ret app fst snd].
    rewrite save_results_cases. cbn [fst snd]. done.
Qed.

Lemma batch_size_not_positive_witness :
  main (example_args 500 0) (stub_env example_text example_stub)
  = ([EvLoading; EvDataType "<class 'list'>"; EvTotal 3; EvSampling; EvSampled 3],
     Raise ValueError)
  /\ main (example_args 500 (-2)) (stub_env example_text example_stub)
     = ([EvLoading; EvDataType "<class 'list'>"; EvTotal 3; EvSampling; EvSampled 3;
         EvOpen "out.json"; EvFile "out.json" (PList []); EvSaved "out.json"], Ok tt).
Proof.
  split.
  - apply (batch_size_not_positive (example_args 500 0)
             (stub_env example_text example_stub) example_text example_samples);
      first [reflexivity | by vm_compute | simpl; lia].
  - apply (batch_size_not_positive (example_args 500 (-2))
             (stub_env example_text example_stub) example_text example_samples);
      first [reflexivity | by vm_compute | simpl; lia].
Defined.

Lemma ceil_div_lt n st k :
  (0 < st)%nat -> (k < (n + st - 1) / st)%nat -> (k * st < n)%nat.
Proof.
  intros Hst Hk. destruct (Nat.lt_ge_cases (k * st) n) as [|Hge]; [done|].
  assert ((n + st - 1) / st < S k)%nat; [|lia].
  apply Nat.Div0.div_lt_upper_bound. nia.
Qed.

Lemma lookup_map {A B} (f : A -> B) l : forall k y,
  map f l !! k = Some y -> exists x, l !! k = Some x /\ y = f x.
Proof.
  induction l as [|x l IH]; intros [|k] y H; simpl in *; try done.
  - injection H as <-. eauto.
  - by apply IH.
Qed.

(** X12 (lines 241-242).  With a positive batch size [bs], the
    [n] sampled items are cut into the least number of batches that
    holds them, the integer above or equal to [n / bs]: the batch
    number [k] starts at [k * bs], no batch is empty, none has more
    than [bs] items, and each but the last has exactly [bs]. *)
Theorem batches_are_fixed_size (sampled : list pyval) (bs : Z) :
  0 < bs ->
  exists starts,
    py_range (length sampled) bs = Ok starts
    /\ length starts = ((length sampled + Z.to_nat bs - 1) / Z.to_nat bs)%nat
    /\ forall k i, starts !! k = Some i ->
         let batch_data := firstn (Z.to_nat bs) (skipn i sampled) in
         i = (k * Z.to_nat bs)%nat
         /\ batch_data <> []
         /\ (length batch_data <= Z.to_nat bs)%nat
         /\ ((S k < length starts)%nat -> length batch_data = Z.to_nat bs).
Proof.
  intros Hbs. unfold py_range.
  destruct (Z.eqb_spec bs 0) as [|_]; [lia|].
  destruct (Z.ltb_spec bs 0) as [|_]; [lia|].
  set (st := Z.to_nat bs). assert (Hst : (0 < st)%nat) by (unfold st; lia).
  eexists. split; [reflexivity|].
  rewrite length_map, length_seq. split; [done|].
  intros k i Hi.
  apply lookup_map in Hi as (c & Hc & ->).
  apply lookup_seq in Hc as [-> Hk]. simpl in *.
  pose proof (ceil_div_lt _ _ _ Hst Hk) as Hlt.
  set (batch_data := take st (drop (k * st) sampled)).
  assert (Hlen : length batch_data = Nat.min st (length sampled - k * st)).
  { unfold batch_data. by rewrite length_take, length_drop. }
  repeat split.
  - intros He. rewrite He in Hlen. simpl in Hlen. lia.
  - lia.
  - intros Hk'. pose proof (ceil_div_lt _ _ _ Hst Hk'). lia.
Qed.

Lemma batches_are_fixed_size_witness :
  exists starts,
    py_range (length example_samples) 2 = Ok starts
    /\ length starts = 2%nat.
Proof.
  destruct (batches_are_fixed_size example_samples 2) as (starts & H1 & H2 & _).
  - lia.
  - exists starts. split; [exact H1|exact H2].
Defined.

Lemma batch_loop_raises (a : args) (w : env) sampled starts :
  (exists i e, In i starts
     /\ process_batch w (firstn (Z.to_nat (batch_size a)) (skipn i sampled))
          (max_new_tokens a) (temperature a) = Raise e) ->
  forall results, exists e', snd (batch_loop a w sampled starts results) = Raise e'.
Proof.
  induction starts as [|j starts IH]; intros (i & e & Hin & He) results; [done|].
  simpl. destruct (run_batch a w sampled results j) as [o [r|e0]] eqn:E.
  - destruct Hin as [->|Hin].
    + unfold run_batch in E. rewrite He in E. done.
    + destruct (IH (ex_intro _ i (ex_intro _ e (conj Hin He))) r) as [e' He'].
      exists e'. simpl. destruct (batch_loop a w sampled starts r). simpl in *.
      by subst.
  - by exists e0.
Qed.

Lemma run_batches_raises (a : args) (w : env) sampled x e :
  0 < batch_size a -> In x sampled ->
  (forall batch, In x batch ->
     process_batch w batch (max_new_tokens a) (temperature a) = Raise e) ->
  exists e', snd (run_batches a w sampled) = Raise e'.
Proof.
  intros Hbs Hx He. unfold run_batches.
  destruct (py_range_batches sampled (batch_size a) Hbs) as (starts & -> & _ & Hc).
  cbn [lift bindW].
  destruct (batch_loop_raises a w sampled starts) with (results := @nil pyval)
    as [e' He'].
  - rewrite <- Hc in Hx. apply in_concat in Hx as (batch & Hb & Hx).
    apply in_map_iff in Hb as (i & <- & Hi). exists i, e. split; [done|]. by apply He.
  - exists e'. destruct (batch_loop a w sampled starts []). simpl in *. by subst.
Qed.

Lemma main_raises (a : args) (w : env) v o s sampled e :
  load_and_prepare_model w (model_path a) = Ok tt ->
  load_data a w = (o, Ok v) ->
  sample_data a w v = (s, Ok sampled) ->
  snd (run_batches a w sampled) = Raise e ->
  snd (main a w) = Raise e /\ opened (fst (main a w)) = []
  /\ files_written (fst (main a w)) = [].
Proof.
  intros Hm Hl Hs He. rewrite (main_batches a w _ _ _ _ Hm Hl Hs).
  pose proof (quiet_run_batches a w sampled) as Hq.
  destruct (run_batches a w sampled) as [ob rb]. simpl in He. subst rb.
  cbn [bindW fst snd]. split; [done|].
  pose proof (quiet_load_data a w) as Hql. rewrite Hl in Hql.
  pose proof (quiet_sample_data a w v) as Hqs. rewrite Hs in Hqs.
  change (EvLoading :: o ++ EvSampling :: s ++ ob)
    with ([EvLoading] ++ o ++ [EvSampling] ++ s ++ ob).
  rewrite !opened_app, !files_written_app.
  pose proof (quiet_opened _ Hql) as O1. pose proof (quiet_opened _ Hqs) as O2.
  pose proof (quiet_opened _ Hq) as O3. pose proof (quiet_files _ Hql) as F1.
  pose proof (quiet_files _ Hqs) as F2. pose proof (quiet_files _ Hq) as F3.
  simpl in O1, O2, O3, F1, F2, F3. by rewrite O1, O2, O3, F1, F2, F3.
Qed.

(** X13 (lines 241-243).  Let the data file hold a JSON sequence of
    which every item is selected, and let the batch size be positive.
    If the generator raises on every batch that holds some item [x] of
    the dataset, an exception leaves [main] and no file is opened or
    written: the records of the batches before are lost. *)
Theorem generation_failure_is_fatal (a : args) (w : env) (text : string) l x e :
  load_and_prepare_model w (model_path a) = Ok tt ->
  read_file w (data_path a) = Ok text ->
  json_loads text = Ok (PList l) ->
  Z.of_nat (length l) <= max_samples a ->
  0 < batch_size a ->
  In x l ->
  (forall batch, In x batch ->
     process_batch w batch (max_new_tokens a) (temperature a) = Raise e) ->
  exists e', snd (main a w) = Raise e'
             /\ opened (fst (main a w)) = []
             /\ files_written (fst (main a w)) = [].
Proof.
  intros Hm Hr Hj Hk Hbs Hx He.
  destruct (sample_data_all a w l Hk) as (sampled & Hs & Hp).
  destruct (run_batches_raises a w sampled x e Hbs) as [e' He']; [|done|].
  { apply list_elem_of_In. rewrite Hp. by apply list_elem_of_In. }
  exists e'. by apply (main_raises a w _ _ _ _ e' Hm (load_data_list _ _ _ _ Hr Hj) Hs).
Qed.

Lemma generation_failure_is_fatal_witness :
  exists e',
    snd (main (example_args 500 2)
              (failing_env example_text example_stub (has_post "p1"))) = Raise e'
    /\ opened (fst (main (example_args 500 2)
                         (failing_env example_text example_stub (has_post "p1")))) = []
    /\ files_written (fst (main (example_args 500 2)
                         (failing_env example_text example_stub (has_post "p1")))) = [].
Proof.
  apply (generation_failure_is_fatal (example_args 500 2)
           (failing_env example_text example_stub (has_post "p1"))
           example_text example_samples
           (PDict [("post", PStr "p1"); ("generated_summary", PStr "s1")]%string)
           RuntimeError).
  - reflexivity.
  - reflexivity.
  - by vm_compute.
  - simpl. lia.
  - simpl. lia.
  - simpl. tauto.
  - intros batch Hin. simpl.
    assert (existsb (has_post "p1") batch = true) as ->; [|done].
    apply existsb_exists. eexists. split; [exact Hin|reflexivity].
Defined.

(** ** The preview and the records of a batch *)



(** X15 (lines 264-270).  For a batch of Samples, the records of the
    batch are as many as the shorter of the batch and the responses:
    when the generator returns fewer responses than the batch has
    items, the items without a response get no record, and no
    exception is raised.  The record at position [j] has the index
    [i + j], with [i] the start of the batch. *)
Theorem records_follow_the_shorter batch_data : forall i responses,
  Forall is_sample batch_data ->
  exists records,
    batch_records i batch_data responses = Ok records
    /\ length records = Nat.min (length batch_data) (length responses)
    /\ forall j data response,
         batch_data !! j = Some data -> responses !! j = Some response ->
         records !! j = Some (evaluation_record (i + j) data response).
Proof.
  induction batch_data as [|data batch_data IH]; intros i responses Hs.
  - exists []. by destruct responses.
  - destruct responses as [|response responses]; [by exists []|].
    apply Forall_cons in Hs as [(d & post & summary & -> & Hp & Hsm) Hs].
    destruct (IH (S i) responses Hs) as (records & Hr & Hlen & Hj).
    simpl. rewrite Hp, Hsm. simpl. rewrite Hr. simpl.
    eexists. split; [reflexivity|]. split; [simpl; by rewrite Hlen|].
    intros [|j] data' response' Hd Hrs; simpl in *.
    + injection Hd as <-. injection Hrs as <-.
      unfold evaluation_record, field. by rewrite Hp, Hsm, Nat.add_0_r.
    + rewrite (Hj _ _ _ Hd Hrs). do 3 f_equal. lia.
Qed.

Lemma records_follow_the_shorter_witness :
  exists records,
    batch_records 4 example_samples ["r1"; "r2"]%string = Ok records
    /\ length records = 2%nat.
Proof.
  destruct (records_follow_the_shorter example_samples 4 ["r1"; "r2"]%string)
    as (records & H1 & H2 & _).
  - repeat constructor; eexists _, _, _; repeat split; reflexivity.
  - exists records. split; [exact H1|exact H2].
Defined.

(** ** The post in the preview *)

(** X25 (lines 241-250).  When the batch size is positive, the
    generator returns for the first batch, and the first sampled item
    is a mapping with a post that cannot be sliced (null, a boolean, a
    number), the run of the batches raises a [TypeError] at line 248,
    after the heading of the first batch is printed: the prompt
    builder formats any value, the preview of the driver does not. *)
Theorem preview_needs_a_text_post (a : args) (w : env) d rest responses v :
  0 < batch_size a ->
  process_batch w (firstn (Z.to_nat (batch_size a)) (PDict d :: rest))
    (max_new_tokens a) (temperature a) = Ok responses ->
  dict_get d "post" = Some v ->
  no_len v = true ->
  run_batches a w (PDict d :: rest) = ([EvBatch 1], Raise TypeError).
Proof.
  intros Hbs Hp Hd Hv. unfold run_batches, py_range.
  destruct (Z.eqb_spec (batch_size a) 0) as [|_]; [lia|].
  destruct (Z.ltb_spec (batch_size a) 0) as [|_]; [lia|].
  set (st := Z.to_nat (batch_size a)) in *.
  assert (Hst : (0 < st)%nat) by (unfold st; lia).
  destruct ((length (PDict d :: rest) + st - 1) / st)%nat as [|cnt] eqn:E.
  { apply Nat.div_small_iff in E; simpl in E; lia. }
  cbn [seq map lift bindW batch_loop Nat.mul]. unfold run_batch. fold st.
  cbn [skipn]. rewrite Hp.
  replace (Z.of_nat 0 / batch_size a + 1) with 1 by (by rewrite Z.div_0_l by lia).
  destruct st as [|st']; [lia|].
  cbn [firstn lift bindW emit app getitem_str]. rewrite Hd.
  by destruct v.
Qed.

Lemma preview_needs_a_text_post_witness :
  run_batches (example_args 500 2) (stub_env example_text example_stub)
    [PDict [("post", PInt 5); ("generated_summary", PStr "five")];
     PDict [("post", PStr "p2"); ("generated_summary", PStr "s2")]]%string
  = ([EvBatch 1], Raise TypeError).
Proof.
  apply (preview_needs_a_text_post (example_args 500 2)
           (stub_env example_text example_stub)
           [("post", PInt 5); ("generated_summary", PStr "five")]%string
           [PDict [("post", PStr "p2"); ("generated_summary", PStr "s2")]]%string
           ["{}, for 5"; "{}, for p2"]%string (PInt 5)).
  - simpl. lia.
  - reflexivity.
  - reflexivity.
  - reflexivity.
Defined.

(** ** The batch generator *)




Section GeneratorLemmas.
Context (output : Type)
  (generate : list string -> Z -> spec_float -> res (list output))
  (decode : output -> res string).



Lemma prompts_has_fields batch_data :
  Forall has_fields batch_data ->
  Generator.prompts batch_data = Ok (map prompt_of batch_data).
Proof.
  intros HF. unfold Generator.prompts. apply mapM_ok_map.
  intros data Hin. rewrite Forall_forall in HF.
  destruct (HF data) as (d & post & summary & -> & Hp & Hs);
    [by apply list_elem_of_In|].
  simpl. rewrite Hp, Hs. simpl. unfold prompt_of, field. by rewrite Hp, Hs.
Qed.



Lemma decode_loop_raise outputs texts o rest e :
  Forall2 (fun o text => decode o = Ok text) outputs texts ->
  decode o = Raise e ->
  forall responses,
    Generator.decode_loop output decode (outputs ++ o :: rest) responses
    = (map py_strip texts, Raise e).
Proof.
  induction 1 as [|o' text outputs texts Ho _ IH]; intros He responses; simpl.
  - by rewrite He.
  - by rewrite Ho, IH.
Qed.

End GeneratorLemmas.

(** X16 (line 95).  When an item of the batch is not a mapping, or is
    a mapping without the key [post] or without the key
    [generated_summary], and the items before it have both keys,
    [process_batch] raises [TypeError] in the first case and
    [KeyError] in the second, whatever the model: nothing is generated
    and nothing printed. *)
Theorem process_batch_missing_key (output : Type)
  (generate : list string -> Z -> spec_float -> res (list output))
  (decode : output -> res string)
  pre data post m t :
  Forall has_fields pre ->
  (forall d, data = PDict d ->
     dict_get d "post" = None \/ dict_get d "generated_summary" = None) ->
  Generator.process_batch output generate decode (pre ++ data :: post) m t
  = ([], Raise (match data with PDict _ => KeyError | _ => TypeError end)).
Proof.
  intros Hpre Hdata. unfold Generator.process_batch, Generator.prompts.
  erewrite mapM_app_raise; [done|apply (prompts_has_fields pre Hpre)|].
  destruct data as [| | | | | | |d]; try done. cbn [getitem_str].
  destruct (Hdata d eq_refl) as [-> | Hs]; [done|].
  destruct (dict_get d "post"); cbn [bind]; [|done]. by rewrite Hs.
Qed.


(** X18 (lines 107-116).  When the decoding of an output sequence
    raises, the exception leaves [process_batch]; the responses of the
    sequences before it have been printed by then, and none is
    returned. *)
Theorem process_batch_decode_failure (output : Type)
  (generate : list string -> Z -> spec_float -> res (list output))
  (decode : output -> res string)
  batch_data m t outputs texts o rest e :
  Forall has_fields batch_data ->
  generate (map prompt_of batch_data) m t = Ok (outputs ++ o :: rest) ->
  Forall2 (fun o text => decode o = Ok text) outputs texts ->
  decode o = Raise e ->
  Generator.process_batch output generate decode batch_data m t
  = (map py_strip texts, Raise e).
Proof.
  intros HF Hg Ht He. unfold Generator.process_batch.
  rewrite (prompts_has_fields _ HF), Hg.
  by apply decode_loop_raise.
Qed.

Lemma process_batch_missing_key_witness :
  Generator.process_batch string (fun ps _ _ => Ok ps) (fun p => Ok p)
    [PDict [("post", PStr "p1"); ("generated_summary", PStr "s1")];
     PDict [("post", PStr "p2")]; PInt 3]%string 512 (S754_zero false)
  = ([], Raise KeyError).
Proof.
  apply (process_batch_missing_key string (fun ps _ _ => Ok ps) (fun p => Ok p)
           [PDict [("post", PStr "p1"); ("generated_summary", PStr "s1")]]%string
           (PDict [("post", PStr "p2")]%string) [PInt 3]).
  - repeat constructor. eexists _, _, _. repeat split; reflexivity.
  - intros d [= <-]. by right.
Defined.


Lemma process_batch_decode_failure_witness :
  Generator.process_batch nat
    (fun ps _ _ => Ok (seq 0 (length ps)))
    (fun n => if Nat.eqb n 1 then Raise RuntimeError else Ok "  {} "%string)
    example_samples 512 (S754_zero false)
  = (["{}"%string], Raise RuntimeError).
Proof.
  apply (process_batch_decode_failure nat
           (fun ps _ _ => Ok (seq 0 (length ps)))
           (fun n => if Nat.eqb n 1 then Raise RuntimeError else Ok "  {} "%string)
           example_samples 512 (S754_zero false) [0%nat] ["  {} "%string] 1%nat
           [2%nat] RuntimeError).
  - repeat constructor; eexists _, _, _; repeat split; reflexivity.
  - reflexivity.
  - by repeat constructor.
  - reflexivity.
Defined.

(** ** The generator in the run *)






(** ** The prompt builder *)

Lemma list_ascii_of_append s t :
  list_ascii_of_string (String.append s t)
  = list_ascii_of_string s ++ list_ascii_of_string t.
Proof. induction s as [|c s IH]; simpl; [done|]. by rewrite IH. Qed.

Lemma list_ascii_of_cat l :
  list_ascii_of_string (cat l) = concat (map list_ascii_of_string l).
Proof.
  induction l as [|s l IH]; simpl; [done|]. by rewrite list_ascii_of_append, IH.
Qed.

Lemma scanstring_plain t r : forall acc,
  forallb json_plain_char t = true ->
  scanstring (t ++ DQ :: r) acc = POk (rev acc ++ map Raw t) r.
Proof.
  induction t as [|c t IH]; intros acc Ht; simpl.
  - eval_chars. by rewrite app_nil_r.
  - simpl in Ht. apply andb_prop in Ht as [Hc Ht]. unfold json_plain_char in Hc.
    apply andb_prop in Hc as [Hc H32]. apply andb_prop in Hc as [Hq Hb].
    apply negb_true_iff in Hq, Hb, H32. rewrite Hq, Hb, H32.
    rewrite IH by done. simpl. by rewrite <- app_assoc.
Qed.

Lemma decode_units_raw t : decode_units (map Raw t) = t.
Proof. induction t as [|c t IH]; simpl; [done|]. by rewrite IH. Qed.

Lemma parse_string_plain t r :
  forallb json_plain_char t = true ->
  parse_string (t ++ DQ :: r) = POk (string_of_list_ascii t) r.
Proof.
  intros Ht. unfold parse_string. rewrite scanstring_plain by done.
  simpl. by rewrite decode_units_raw.
Qed.

Lemma scan_once_string fuel s str r :
  parse_string s = POk str r -> scan_once (S fuel) (DQ :: s) = POk (PStr str) r.
Proof. intros H. cbn [scan_once]. eval_chars. by rewrite H. Qed.

Lemma scan_once_object fuel s r :
  skip_ws s = DQ :: r -> scan_once (S fuel) ("{"%char :: s) = object_loop fuel r [].
Proof. intros H. cbn [scan_once]. eval_chars. rewrite H. by eval_chars. Qed.

Lemma object_loop_member fuel s acc key r r1 v r2 r3 r4 :
  parse_string s = POk key r ->
  skip_ws r = ":"%char :: r1 ->
  scan_once fuel (skip_ws r1) = POk v r2 ->
  skip_ws r2 = ","%char :: r3 ->
  skip_ws r3 = DQ :: r4 ->
  object_loop (S fuel) s acc = object_loop fuel r4 ((key, v) :: acc).
Proof.
  intros H1 H2 H3 H4 H5. cbn [object_loop]. rewrite H1, H2. eval_chars.
  rewrite H3, H4. eval_chars. rewrite H5. by eval_chars.
Qed.

Lemma object_loop_last fuel s acc key r r1 v r2 r3 :
  parse_string s = POk key r ->
  skip_ws r = ":"%char :: r1 ->
  scan_once fuel (skip_ws r1) = POk v r2 ->
  skip_ws r2 = "}"%char :: r3 ->
  object_loop (S fuel) s acc
  = POk (PDict (dict_of_pairs (rev ((key, v) :: acc)))) r3.
Proof.
  intros H1 H2 H3 H4. cbn [object_loop]. rewrite H1, H2. eval_chars.
  rewrite H3, H4. by eval_chars.
Qed.

Lemma input_object_chars post summary :
  list_ascii_of_string (input_object post summary)
  = "{"%char :: "010"%char :: " "%char :: " "%char :: DQ
    :: (list_ascii_of_string "original_post"
        ++ DQ :: ":"%char :: " "%char :: DQ
        :: (list_ascii_of_string post
            ++ DQ :: ","%char :: "010"%char :: " "%char :: " "%char :: DQ
            :: (list_ascii_of_string "generated_summary"
                ++ DQ :: ":"%char :: " "%char :: DQ
                :: (list_ascii_of_string summary
                    ++ DQ :: "010"%char :: ["}"%char])))).
Proof.
  unfold input_object. rewrite list_ascii_of_cat. cbn [map concat].
  rewrite app_nil_r. reflexivity.
Qed.

(** X20 (lines 79-83).  When the post and the summary hold no double
    quote, no backslash and no control character, the object in the
    prompt is JSON, and it reads back as the mapping of
    [original_post] to the post and of [generated_summary] to the
    summary. *)
Theorem input_object_round_trip (post summary : string) :
  json_plain post = true -> json_plain summary = true ->
  json_loads (input_object post summary)
  = Ok (PDict [("original_post", PStr post); ("generated_summary", PStr summary)]%string).
Proof.
  intros Hp Hs. unfold json_loads. rewrite input_object_chars.
  match goal with
  | |- context [scan_once ?f _] =>
      assert (exists n, f = S (S (S (S n)))) as [n ->]
        by (exists (f - 4)%nat; simpl; lia)
  end.
  replace (skip_ws _) with ("{"%char :: "010"%char :: " "%char :: " "%char :: DQ
    :: (list_ascii_of_string "original_post"
        ++ DQ :: ":"%char :: " "%char :: DQ
        :: (list_ascii_of_string post
            ++ DQ :: ","%char :: "010"%char :: " "%char :: " "%char :: DQ
            :: (list_ascii_of_string "generated_summary"
                ++ DQ :: ":"%char :: " "%char :: DQ
                :: (list_ascii_of_string summary
                    ++ DQ :: "010"%char :: ["}"%char]))))) by reflexivity.
  erewrite scan_once_object by reflexivity.
  erewrite object_loop_member;
    [ | by apply parse_string_plain | reflexivity
      | apply scan_once_string; by apply parse_string_plain
      | reflexivity | reflexivity ].
  erewrite object_loop_last;
    [ | by apply parse_string_plain | reflexivity
      | apply scan_once_string; by apply parse_string_plain
      | reflexivity ].
  cbn [skip_ws rev app]. rewrite !string_of_list_ascii_of_string.
  reflexivity.
Qed.

Lemma input_object_round_trip_witness :
  json_loads (input_object "I moved (again), it's fine" "moved: fine")
  = Ok (PDict [("original_post", PStr "I moved (again), it's fine");
               ("generated_summary", PStr "moved: fine")]%string).
Proof. apply input_object_round_trip; reflexivity. Defined.

Lemma skip_ws_plain b rest :
  forallb json_plain_char b = true ->
  skip_ws (b ++ rest) = skip_ws rest
  \/ exists c b', skip_ws (b ++ rest) = c :: b' ++ rest
                  /\ json_plain_char c = true /\ is_json_ws c = false
                  /\ forallb json_plain_char b' = true.
Proof.
  induction b as [|c b IH]; intros Hb; [by left|].
  simpl in Hb. apply andb_prop in Hb as [Hc Hb]. simpl.
  destruct (is_json_ws c) eqn:E; [by apply IH|].
  right. by exists c, b.
Qed.

Lemma object_loop_bad_separator fuel s acc key r r1 v r2 d r3 :
  parse_string s = POk key r ->
  skip_ws r = ":"%char :: r1 ->
  scan_once fuel (skip_ws r1) = POk v r2 ->
  skip_ws r2 = d :: r3 ->
  Ascii.eqb d "}" = false -> Ascii.eqb d "," = false ->
  object_loop (S fuel) s acc = PErr.
Proof.
  intros H1 H2 H3 H4 H5 H6. cbn [object_loop]. rewrite H1, H2. eval_chars.
  by rewrite H3, H4, H5, H6.
Qed.

Lemma object_loop_bad_key fuel s acc key r r1 v r2 r3 e r4 :
  parse_string s = POk key r ->
  skip_ws r = ":"%char :: r1 ->
  scan_once fuel (skip_ws r1) = POk v r2 ->
  skip_ws r2 = ","%char :: r3 ->
  skip_ws r3 = e :: r4 ->
  Ascii.eqb e DQ = false ->
  object_loop (S fuel) s acc = PErr.
Proof.
  intros H1 H2 H3 H4 H5 H6. cbn [object_loop]. rewrite H1, H2. eval_chars.
  rewrite H3, H4. eval_chars. by rewrite H5, H6.
Qed.

Lemma plain_not_quote c : json_plain_char c = true -> Ascii.eqb c DQ = false.
Proof.
  unfold json_plain_char. intros H. apply andb_prop in H as [H _].
  apply andb_prop in H as [H _]. by apply negb_true_iff in H.
Qed.

Lemma skip_ws_app b rest :
  skip_ws (b ++ rest)
  = match skip_ws b with
    | [] => skip_ws rest
    | c :: b' => c :: b' ++ rest
    end.
Proof.
  induction b as [|c b IH]; simpl; [by destruct (skip_ws rest)|].
  by destruct (is_json_ws c).
Qed.

(** X21 (lines 79-83).  The texts are not escaped: when the post has
    one double quote, or has a double quote after which the first
    character that is not whitespace is neither a comma nor a closing
    brace, and the text before that quote is free of double quotes,
    backslashes and control characters, the object in the prompt is no
    JSON. *)
Theorem input_object_quote_in_post (post summary : string) a b :
  list_ascii_of_string post = a ++ DQ :: b ->
  forallb json_plain_char a = true ->
  forallb json_plain_char b = true
  \/ (forall c b', skip_ws b = c :: b' -> c <> ","%char /\ c <> "}"%char) ->
  json_loads (input_object post summary) = Raise JSONDecodeError.
Proof.
  intros Hpost Ha Hb. unfold json_loads. rewrite input_object_chars, Hpost.
  match goal with
  | |- context [scan_once ?f _] =>
      assert (exists n, f = S (S (S (S n)))) as [n ->]
        by (exists (f - 4)%nat; simpl; lia)
  end.
  set (tail := ","%char :: "010"%char :: " "%char :: " "%char :: DQ
    :: (list_ascii_of_string "generated_summary"
        ++ DQ :: ":"%char :: " "%char :: DQ
        :: (list_ascii_of_string summary ++ DQ :: "010"%char :: ["}"%char]))).
  replace (skip_ws _) with ("{"%char :: "010"%char :: " "%char :: " "%char :: DQ
    :: (list_ascii_of_string "original_post"
        ++ DQ :: ":"%char :: " "%char :: DQ
        :: (a ++ DQ :: (b ++ DQ :: tail))))
    by (rewrite <- app_assoc; reflexivity).
  erewrite scan_once_object by reflexivity.
  assert (Hval : scan_once (S (S n)) (skip_ws (" "%char :: DQ :: a ++ DQ :: b ++ DQ :: tail))
                 = POk (PStr (string_of_list_ascii a)) (b ++ DQ :: tail)).
  { apply scan_once_string. by apply parse_string_plain. }
  destruct Hb as [Hb|Hb].
  2: {
    pose proof (skip_ws_app b (DQ :: tail)) as Hsp.
    destruct (skip_ws b) as [|c b'] eqn:E.
    - erewrite object_loop_bad_separator;
        [done | by apply parse_string_plain | reflexivity | exact Hval
        | rewrite Hsp; reflexivity | reflexivity | reflexivity ].
    - destruct (Hb c b' eq_refl) as [H1 H2].
      erewrite object_loop_bad_separator;
        [done | by apply parse_string_plain | reflexivity | exact Hval
        | exact Hsp | by apply Ascii.eqb_neq | by apply Ascii.eqb_neq ]. }
  destruct (skip_ws_plain b (DQ :: tail) Hb) as [Hsp|(c & b' & Hsp & Hc & Hws & Hb')].
  - erewrite object_loop_bad_separator;
      [done | by apply parse_string_plain | reflexivity | exact Hval
      | rewrite Hsp; reflexivity | reflexivity | reflexivity ].
  - destruct (Ascii.eqb_spec c "}") as [-> |Hbrace].
    + erewrite object_loop_last;
        [ | by apply parse_string_plain | reflexivity | exact Hval | exact Hsp ].
      destruct (skip_ws_plain b' (DQ :: tail) Hb') as [-> |(c' & b'' & -> & _)]; done.
    + apply Ascii.eqb_neq in Hbrace.
      destruct (Ascii.eqb_spec c ",") as [-> |Hcomma].
      * destruct (skip_ws_plain b' (DQ :: tail) Hb')
          as [Hsp' |(c' & b'' & Hsp' & Hc' & _)].
        -- erewrite object_loop_member;
             [ | by apply parse_string_plain | reflexivity | exact Hval | exact Hsp
               | rewrite Hsp'; reflexivity ].
           reflexivity.
        -- erewrite object_loop_bad_key;
             [done | by apply parse_string_plain | reflexivity | exact Hval | exact Hsp
             | exact Hsp' | by apply plain_not_quote ].
      * apply Ascii.eqb_neq in Hcomma.
        erewrite object_loop_bad_separator;
          [done | by apply parse_string_plain | reflexivity | exact Hval
          | exact Hsp | done | done ].
Qed.

Lemma input_object_quote_in_post_witness :
  json_loads (input_object (q "He said `no` and left") "He left")
  = Raise JSONDecodeError.
Proof.
  apply (input_object_quote_in_post _ _ (list_ascii_of_string "He said ")
           (list_ascii_of_string (q "no` and left"))).
  - reflexivity.
  - reflexivity.
  - right. intros c b' [= <- _]. by split.
Defined.

Lemma list_ascii_inj s t : list_ascii_of_string s = list_ascii_of_string t -> s = t.
Proof.
  intros H. by rewrite <- (string_of_list_ascii_of_string s),
                       <- (string_of_list_ascii_of_string t), H.
Qed.

Lemma prepare_input_chars :
  exists pre suf,
    forall p s,
      list_ascii_of_string (prepare_input (PStr p) (PStr s))
      = pre ++ list_ascii_of_string (input_object p s) ++ suf.
Proof.
  exists (list_ascii_of_string
            (cat [lines ["<|begin_of_text|><|start_header_id|>system<|end_header_id|>"]%string;
                  SYSTEM_PROMPT;
                  lines ["<|eot_id|><|start_header_id|>user<|end_header_id|>"]%string;
                  lines ["# Input"]%string])),
         (list_ascii_of_string
            (cat [lines [""; "";
                         "# Output";
                         "Please score each word in generated_summary based on original_post and the feedback of generated_summary, and output the responses as a JSON Dictionary without any extra information:"]%string;
                  lines [" "; "<|eot_id|><|start_header_id|>assistant<|end_header_id|>"]%string])).
  intros p s. unfold prepare_input, question. cbn [py_str].
  repeat (rewrite !list_ascii_of_cat; cbn [map concat]).
  repeat match goal with
  | |- context [list_ascii_of_string ?t] =>
      let l := fresh "l" in generalize (list_ascii_of_string t); intros l
  end.
  by rewrite !app_nil_r, <- !app_assoc.
Qed.

Lemma first_quote_unique P : forall P' r r',
  ~ In DQ P -> ~ In DQ P' ->
  P ++ DQ :: r = P' ++ DQ :: r' -> P = P' /\ r = r'.
Proof.
  induction P as [|c P IH]; intros [|c' P'] r r' H1 H2 H; simpl in *.
  - by injection H as ->.
  - injection H as <- _. tauto.
  - injection H as -> _. tauto.
  - injection H as -> H. destruct (IH P' r r') as [-> ->]; tauto.
Qed.

(** X22 (lines 78-91).  Two Samples whose posts hold no double
    quote, and which differ in the post or in the summary, have
    different prompts: the first double quote after the key
    [original_post] ends the post. *)
Theorem prepare_input_determines_sample (post summary post' summary' : string) :
  ~ In DQ (list_ascii_of_string post) ->
  ~ In DQ (list_ascii_of_string post') ->
  (post, summary) <> (post', summary') ->
  prepare_input (PStr post) (PStr summary) <> prepare_input (PStr post') (PStr summary').
Proof.
  intros Hp Hp' Hne H. apply Hne.
  destruct prepare_input_chars as (pre & suf & Hc).
  apply (f_equal list_ascii_of_string) in H. rewrite !Hc in H.
  apply app_inv_head, app_inv_tail in H. rewrite !input_object_chars in H.
  injection H as H.
  apply first_quote_unique in H as [H1 H]; [|done|done].
  injection H as H. apply app_inv_tail in H.
  by rewrite (list_ascii_inj _ _ H1), (list_ascii_inj _ _ H).
Qed.

Lemma prepare_input_determines_sample_witness :
  prepare_input (PStr "a post") (PStr (q "`short`"))
  <> prepare_input (PStr "a post") (PStr (q "`shorter`")).
Proof.
  apply prepare_input_determines_sample.
  - vm_compute. intuition discriminate.
  - vm_compute. intuition discriminate.
  - by vm_compute.
Defined.

(** X23 (lines 78-91).  With a double quote in the post two different
    Samples can have the same prompt: the text of the template between
    the post and the summary can be moved from the post of one into
    the summary of the other. *)
Theorem prepare_input_collision (x y z : string) :
  prepare_input (PStr (cat [x; between_texts; y])) (PStr z)
  = prepare_input (PStr x) (PStr (cat [y; between_texts; z]))
  /\ cat [x; between_texts; y] <> x.
Proof.
  split.
  - apply list_ascii_inj.
    destruct prepare_input_chars as (pre & suf & Hc). rewrite !Hc.
    do 2 f_equal. unfold input_object, between_texts.
    repeat (rewrite !list_ascii_of_cat; cbn [map concat]).
    repeat match goal with
    | |- context [list_ascii_of_string ?t] =>
        let l := fresh "l" in generalize (list_ascii_of_string t); intros l
    end.
    by rewrite !app_nil_r, <- !app_assoc.
  - intros H. apply (f_equal (fun s => length (list_ascii_of_string s))) in H.
    rewrite list_ascii_of_cat in H. cbn [map concat] in H.
    rewrite !length_app in H.
    assert (0 < length (list_ascii_of_string between_texts))%nat
      by (vm_compute; lia).
    lia.
Qed.
